(** * lip, package [internal/tooth]: archive ingestion and version resolution

    A shallow embedding of [archive.go] and [utils.go] and the proofs of
    the properties their specification states.

    Conventions.
    - A Go [string] is a byte string: [String.string], compared bytewise.
    - A Go function returning [(T, error)] returns [result T]; the zero
      value that accompanies a non-nil error is not represented.
    - [fmt.Errorf("msg: %w", err)] is [Wrap "msg" err]; an error made from
      a message alone is [New msg].
    - Loops that [append] to a slice are recursive functions over the
      ranged slice that thread the slice being built.
    - The packages [internal/path], [internal/zip], [internal/network],
      [internal/context] and the file [metadata.go] are not part of the
      sources at hand, and neither are the third-party libraries; their
      operations are the fields of the interface classes [path.API] and
      [Lib], the file system and the network are a [World], and every
      theorem holds for all of them. Reference implementations, used in
      the examples, come after the embedding. *)

From Stdlib Require Import List String Ascii Bool Arith NArith Lia.
From Stdlib Require Import Permutation Sorted.
Import ListNotations.

Set Implicit Arguments.
Local Open Scope string_scope.
Local Open Scope list_scope.

(** ** Errors *)

Inductive error : Type :=
| New (msg : string)
| Wrap (msg : string) (cause : error).

Definition result (A : Type) : Type := (error + A)%type.

Definition Ok {A : Type} (a : A) : result A := inr a.
Definition Err {A : Type} (e : error) : result A := inl e.

Definition bind {A B : Type} (r : result A) (k : A -> result B) : result B :=
  match r with
  | inl e => inl e
  | inr a => k a
  end.

(** [if err != nil { return ..., fmt.Errorf("msg: %w", err) }] *)
Definition wrap {A : Type} (msg : string) (r : result A) : result A :=
  match r with
  | inl e => inl (Wrap msg e)
  | inr a => inr a
  end.

Declare Scope result_scope.
Delimit Scope result_scope with result.
Notation "x <- c ;; k" := (bind c (fun x => k))
  (at level 61, c at next level, right associativity) : result_scope.
Local Open Scope result_scope.

Definition isOk {A : Type} (r : result A) : bool :=
  match r with inl _ => false | inr _ => true end.

(** ** Package [strings] of the Go library, on byte strings *)

Module strings.

Definition HasPrefix (s prefix : string) : bool := String.prefix prefix s.

Definition HasSuffix (s suffix : string) : bool :=
  Nat.leb (String.length suffix) (String.length s)
  && (substring (String.length s - String.length suffix)
                (String.length suffix) s =? suffix).

Definition TrimPrefix (s prefix : string) : string :=
  if HasPrefix s prefix
  then substring (String.length prefix)
                 (String.length s - String.length prefix) s
  else s.

Definition TrimSuffix (s suffix : string) : string :=
  if HasSuffix s suffix
  then substring 0 (String.length s - String.length suffix) s
  else s.

(** [strings.Split(s, sep)] for a separator of one byte: the pieces of
    [s] between the separators, at least one piece. *)
Fixpoint SplitByte (sep : ascii) (s : string) : list string :=
  match s with
  | EmptyString => [EmptyString]
  | String c rest =>
      if Ascii.eqb c sep
      then EmptyString :: SplitByte sep rest
      else match SplitByte sep rest with
           | piece :: pieces => String c piece :: pieces
           | [] => [String c EmptyString]
           end
  end.

Definition Contains (s substr : string) : bool :=
  match index 0 substr s with
  | Some _ => true
  | None => false
  end.

End strings.

(** ** Package [internal/path] *)

Module path.

(** Modelled from the spec: the package [internal/path] is missing from
    the sources. The spec describes a "normalized path type supporting
    join, prefix-strip, longest-common-prefix, parent"; the operations
    below are the ones [archive.go] and [utils.go] call, with the
    signatures they are used at ([Join] with one argument). *)
Class API : Type := {
  Path : Type;
  MakeEmpty : Path;
  Parse : string -> result Path;
  MustParse : string -> Path;
  ExtractLongestCommonPath : list Path -> Path;
  Dir : Path -> result Path;
  HasPrefix : Path -> Path -> bool;
  IsEmpty : Path -> bool;
  Join : Path -> Path -> Path;
  LocalString : Path -> string;
  String : Path -> string;
  TrimPrefix : Path -> Path -> Path
}.

End path.

(** ** Metadata *)

(** Modelled from the spec: [metadata.go] is missing from the sources.
    The manifest has the fields of the spec's manifest format: [tooth],
    [asset_url] and [files.place]. *)
Record RawMetadataFilesPlaceItem : Type := {
  Src : string;
  Dest : string
}.

(** Modelled from the spec: the [files] object of the manifest, of which
    the spec describes [place]. *)
Record RawMetadataFiles : Type := {
  Place : list RawMetadataFilesPlaceItem
}.

(** Modelled from the spec: the manifest as it is decoded. *)
Record RawMetadata : Type := {
  Tooth : string;
  RawAssetURL : string;
  Files : RawMetadataFiles
}.

(** Modelled from the spec: [Metadata] wraps the decoded manifest, as
    [Metadata{rawMetadata}] of line 170 shows. *)
Record Metadata : Type := {
  rawMetadata : RawMetadata
}.

(** Modelled from the spec: the accessors of [Metadata] that the sources
    call; each returns the field of the manifest it is named after. *)
Definition Raw (m : Metadata) : RawMetadata := rawMetadata m.
Definition ToothRepoPath (m : Metadata) : string := Tooth (rawMetadata m).
Definition AssetURL (m : Metadata) : string := RawAssetURL (rawMetadata m).

(** [rawMetadata.Files.Place = newPlace] *)
Definition setPlace (raw : RawMetadata)
    (newPlace : list RawMetadataFilesPlaceItem) : RawMetadata :=
  {| Tooth := Tooth raw;
     RawAssetURL := RawAssetURL raw;
     Files := {| Place := newPlace |} |}.

(** The wildcard marker of a placement rule. *)
Definition wildcard : string := "*".

(** ** Package [github.com/blang/semver/v4]: versions and their precedence *)

Module semver.

Record PRVersion : Type := {
  VersionStr : string;
  VersionNum : N;
  IsNum : bool
}.

Record Version : Type := {
  Major : N;
  Minor : N;
  Patch : N;
  Pre : list PRVersion;
  Build : list string
}.

Definition PRCompare (v o : PRVersion) : comparison :=
  if IsNum v && negb (IsNum o) then Lt
  else if negb (IsNum v) && IsNum o then Gt
  else if IsNum v && IsNum o then N.compare (VersionNum v) (VersionNum o)
  else String.compare (VersionStr v) (VersionStr o).

(** The loop over the common pre-release positions and the comparison of
    the lengths that follows it. *)
Fixpoint PreCompare (v o : list PRVersion) : comparison :=
  match v, o with
  | [], [] => Eq
  | [], _ :: _ => Lt
  | _ :: _, [] => Gt
  | x :: v', y :: o' =>
      match PRCompare x y with
      | Eq => PreCompare v' o'
      | Lt => Lt
      | Gt => Gt
      end
  end.

Definition Compare (v o : Version) : comparison :=
  match N.compare (Major v) (Major o) with
  | Lt => Lt
  | Gt => Gt
  | Eq =>
      match N.compare (Minor v) (Minor o) with
      | Lt => Lt
      | Gt => Gt
      | Eq =>
          match N.compare (Patch v) (Patch o) with
          | Lt => Lt
          | Gt => Gt
          | Eq =>
              match Pre v, Pre o with
              | [], [] => Eq
              | [], _ :: _ => Gt
              | _ :: _, [] => Lt
              | _, _ => PreCompare (Pre v) (Pre o)
              end
          end
      end
  end.

(** [v.LT(o)], the [Less] of [semver.Versions]. *)
Definition LT (v o : Version) : bool :=
  match Compare v o with
  | Lt => true
  | _ => false
  end.

End semver.

(** ** Package [bufio]: a [Scanner] with the default split function *)

Module bufio.

Definition MaxScanTokenSize : N := 64 * 1024.

(** The default split function, [ScanLines], cuts the input at each
    newline, drops one carriage return from the end of a line, and yields
    what follows the last newline as a last line unless it is empty.

    The pieces of [data] between its newlines; the last piece is what
    follows the last newline. *)
Definition segments (data : string) : list string :=
  strings.SplitByte "010" data.

(** The buffer of a [Scanner] grows to [MaxScanTokenSize] bytes at most.
    A line is a token only if it fits the buffer together with its
    newline or, for the last line, with room left to read the end of the
    input: a line of [MaxScanTokenSize] bytes or more makes [Scan] set
    [ErrTooLong] and return false, then and ever after. *)
Definition tooLong (line : string) : bool :=
  (MaxScanTokenSize <=? N.of_nat (String.length line))%N.

Definition dropCR (line : string) : string :=
  strings.TrimSuffix line (String "013" EmptyString).

Fixpoint tokens (segs : list string) : list string :=
  match segs with
  | [] => []
  | [final] =>
      if final =? "" then []
      else if tooLong final then []
      else [dropCR final]
  | seg :: rest =>
      if tooLong seg then []
      else dropCR seg :: tokens rest
  end.

(** The successive values of [scanner.Text()] in
    [for scanner.Scan() { ... }] over a reader of [content]. *)
Definition Scan (content : string) : list string :=
  tokens (segments content).

End bufio.

(** ** Package [archive/zip] *)

Module gozip.

(** An opened entry: what [io.ReadAll] returns on it. *)
Record EntryReader : Type := {
  ReadAll : result string
}.

Record File : Type := {
  Name : string;
  Open : result EntryReader
}.

Record ReadCloser : Type := {
  Files : list File
}.

End gozip.

(** ** The collaborators *)

(** Go's [sort] promises its caller the same elements, and in order when
    [less] is a strict weak ordering. *)
Definition StrictWeakOrder {A : Type} (less : A -> A -> bool) : Prop :=
  (forall a, less a a = false)
  /\ (forall a b c, less a b = true -> less b c = true -> less a c = true)
  /\ (forall a b c, less a b = false -> less b c = false -> less a c = false).

Definition SortContract
    (sort : forall A : Type, (A -> A -> bool) -> list A -> list A) : Prop :=
  forall (A : Type) (less : A -> A -> bool) (l : list A),
    Permutation (sort A less l) l
    /\ (StrictWeakOrder less ->
        StronglySorted (fun a b => less b a = false) (sort A less l)).

(** The pure functions [archive.go] and [utils.go] call and that are not
    among the sources: [zip.GetFilePaths] and [MakeMetadata] of this
    repository, [network.GenerateGoModuleVersionListURL], and the library
    functions [filepath.Join], [module.CheckPath], [semver.Parse],
    [strings.ToLower], [sort.Sort] and [sort.Slice]. *)
Class Lib {P : path.API} : Type := {
  URL : Type;
  zip_GetFilePaths : gozip.ReadCloser -> result (list path.Path);
  MakeMetadata : string -> result Metadata;
  filepath_Join : string -> string -> string;
  module_CheckPath : string -> option error;
  network_GenerateGoModuleVersionListURL : string -> URL -> result URL;
  semver_Parse : string -> result semver.Version;
  strings_ToLower : string -> string;
  sort_Sort : forall A : Type, (A -> A -> bool) -> list A -> list A;
  sort_Slice : forall A : Type, (A -> A -> bool) -> list A -> list A
}.

(** The state the functions read: the file system, through
    [zip.OpenReader], [filepath.Glob] and [os.ReadFile], and the remote
    index, through [network.GetContent]. *)
Record World {P : path.API} {L : Lib} : Type := {
  gozip_OpenReader : string -> result gozip.ReadCloser;
  filepath_Glob : string -> result (list string);
  os_ReadFile : string -> result string;
  network_GetContent : URL -> result string
}.

(** [context.Context], with the two methods [utils.go] calls. *)
Record Context {P : path.API} {L : Lib} : Type := {
  MetadataDir : result path.Path;
  GoModuleProxyURL : result URL
}.

(** * archive.go *)

Section ArchiveGo.

Context {P : path.API} {L : Lib}.
Import path.

Record Archive : Type := {
  metadata : Metadata;
  assetArchiveFilePath : Path;
  assetArchiveFilePathRoot : Path
}.

(** *** [populateMetadataFilePlaceWildcards], lines 132-173 *)

(** The inner loop, lines 154-165, for one wildcard rule. *)
Fixpoint expandLoop (sourcePathPrefix destPathPrefix : Path)
    (filePaths : list Path)
    (newPlace : list RawMetadataFilesPlaceItem)
    : list RawMetadataFilesPlaceItem :=
  match filePaths with
  | [] => newPlace
  | filePath :: rest =>
      if negb (HasPrefix filePath sourcePathPrefix)
      then expandLoop sourcePathPrefix destPathPrefix rest newPlace
      else
        let relFilePath := TrimPrefix filePath sourcePathPrefix in
        expandLoop sourcePathPrefix destPathPrefix rest
          (newPlace
           ++ [ {| Src := String filePath;
                   Dest := String (Join destPathPrefix relFilePath) |} ])
  end.

(** The outer loop, lines 137-166. *)
Fixpoint placeLoop (place : list RawMetadataFilesPlaceItem)
    (filePaths : list Path)
    (newPlace : list RawMetadataFilesPlaceItem)
    : result (list RawMetadataFilesPlaceItem) :=
  match place with
  | [] => Ok newPlace
  | placeItem :: rest =>
      if negb (strings.HasSuffix (Src placeItem) wildcard)
      then placeLoop rest filePaths (newPlace ++ [placeItem])
      else
        sourcePathPrefix <-
          wrap "failed to parse source path prefix"
               (Parse (strings.TrimSuffix (Src placeItem) wildcard)) ;;
        destPathPrefix <-
          wrap "failed to parse destination path prefix"
               (Parse (Dest placeItem)) ;;
        placeLoop rest filePaths
          (expandLoop sourcePathPrefix destPathPrefix filePaths newPlace)
  end.

Definition populateMetadataFilePlaceWildcards (metadata : Metadata)
    (filePaths : list Path) : result Metadata :=
  let rawMetadata := Raw metadata in
  newPlace <- placeLoop (Place (Files rawMetadata)) filePaths [] ;;
  Ok {| rawMetadata := setPlace rawMetadata newPlace |}.

(** *** [MakeArchive], lines 22-113 *)

(** The error of line 76, the spec's [ConfigMismatch]. *)
Definition ConfigMismatch : error :=
  New "asset URL and archive file path must be both specified or both empty".

(** The message of lines 90-91 and 103-104. *)
Definition resolveFailed : string :=
  "failed to resolve metadata files place regular expressions".

(** The error of line 53, the spec's [ManifestNotFound]. *)
Definition ManifestNotFound : error :=
  New "archive does not contain tooth.json".

(** Lines 46-51: the first entry of [r.File] with the given name. *)
Fixpoint findFile (files : list gozip.File) (name : string)
    : option gozip.File :=
  match files with
  | [] => None
  | file :: rest =>
      if gozip.Name file =? name then Some file else findFile rest name
  end.

(** Lines 74-112: the validation of the asset location and the two
    branches. *)
Definition archiveFromManifest (archiveFilePath assetArchiveFilePath : Path)
    (filePaths : list Path) (filePathRoot : Path) (metadata : Metadata)
    : result Archive :=
  if ((AssetURL metadata =? "") && negb (IsEmpty assetArchiveFilePath))
     || (negb (AssetURL metadata =? "") && IsEmpty assetArchiveFilePath)
  then Err ConfigMismatch
  else if IsEmpty assetArchiveFilePath
  then
    let filePathsTrimmed :=
      map (fun filePath => TrimPrefix filePath filePathRoot) filePaths in
    metadataWithoutWildcards <-
      wrap resolveFailed
           (populateMetadataFilePlaceWildcards metadata filePathsTrimmed) ;;
    Ok {| metadata := metadataWithoutWildcards;
          assetArchiveFilePath := archiveFilePath;
          assetArchiveFilePathRoot := filePathRoot |}
  else
    metadataWithoutWildcards <-
      wrap resolveFailed
           (populateMetadataFilePlaceWildcards metadata filePaths) ;;
    Ok {| metadata := metadataWithoutWildcards;
          assetArchiveFilePath := assetArchiveFilePath;
          assetArchiveFilePathRoot := MakeEmpty |}.

(** Lines 43-72: the manifest at [filePathRoot], found, read and
    parsed. *)
Definition readManifest (r : gozip.ReadCloser) (filePathRoot : Path)
    : result Metadata :=
  let toothJSONFilePath := Join filePathRoot (MustParse "tooth.json") in
  match findFile (gozip.Files r) (String toothJSONFilePath) with
  | None => Err ManifestNotFound
  | Some toothJSONFile =>
      toothJSONFileReader <-
        wrap "failed to open tooth.json" (gozip.Open toothJSONFile) ;;
      toothJSONBytes <-
        wrap "failed to read tooth.json" (gozip.ReadAll toothJSONFileReader) ;;
      wrap "failed to parse tooth.json" (MakeMetadata toothJSONBytes)
  end.

(** Lines 34-41: the root of the package among the entries. *)
Definition inferRoot (filePaths : list Path) : result Path :=
  let filePathRoot := ExtractLongestCommonPath filePaths in
  if (List.length filePaths =? 1)%nat
  then wrap "failed to get directory of tooth.json" (Dir filePathRoot)
  else Ok filePathRoot.

Definition MakeArchive (w : World) (archiveFilePath assetArchiveFilePath : Path)
    : result Archive :=
  r <- wrap "failed to open archive"
            (gozip_OpenReader w (LocalString archiveFilePath)) ;;
  filePaths <- wrap "failed to extract file paths" (zip_GetFilePaths r) ;;
  filePathRoot <- inferRoot filePaths ;;
  metadata <- readManifest r filePathRoot ;;
  archiveFromManifest archiveFilePath assetArchiveFilePath
                      filePaths filePathRoot metadata.

Definition AssetArchiveFilePath (ar : Archive) : Path :=
  assetArchiveFilePath ar.

Definition AssetArchiveFilePathRoot (ar : Archive) : Path :=
  assetArchiveFilePathRoot ar.

End ArchiveGo.

(** * utils.go *)

Section UtilsGo.

Context {P : path.API} {L : Lib}.
Import path.

(** *** [GetAllMetadata], lines 38-73 *)

(** Lines 51-63. *)
Fixpoint readLoop (w : World) (filePaths : list string)
    (metadataList : list Metadata) : result (list Metadata) :=
  match filePaths with
  | [] => Ok metadataList
  | filePath :: rest =>
      jsonBytes <-
        wrap "failed to read metadata file" (os_ReadFile w filePath) ;;
      metadata <-
        wrap "failed to parse metadata file" (MakeMetadata jsonBytes) ;;
      readLoop w rest (metadataList ++ [metadata])
  end.

(** The [less] of lines 67-70. *)
Definition lessRepoPath (a b : Metadata) : bool :=
  String.ltb (strings_ToLower (ToothRepoPath a))
             (strings_ToLower (ToothRepoPath b)).

Definition GetAllMetadata (w : World) (ctx : Context)
    : result (list Metadata) :=
  metadataDir <- wrap "failed to get metadata directory" (MetadataDir ctx) ;;
  filePaths <-
    wrap "failed to list metadata files"
         (filepath_Glob w (filepath_Join (LocalString metadataDir) "*.json")) ;;
  metadataList <- readLoop w filePaths [] ;;
  Ok (sort_Slice lessRepoPath metadataList).

(** *** [IsInstalled], lines 20-35 *)

Fixpoint installedLoop (metadataList : list Metadata)
    (toothRepoPath : string) : bool :=
  match metadataList with
  | [] => false
  | metadata :: rest =>
      if ToothRepoPath metadata =? toothRepoPath then true
      else installedLoop rest toothRepoPath
  end.

Definition IsInstalled (w : World) (ctx : Context) (toothRepoPath : string)
    : result bool :=
  metadataList <-
    wrap "failed to list all installed tooth metadata"
         (GetAllMetadata w ctx) ;;
  Ok (installedLoop metadataList toothRepoPath).

(** *** [GetMetadata], lines 76-93 *)

(** The error of lines 91-92, the spec's [NotFound]. *)
Definition NotFound (toothRepoPath : string) : error :=
  New ("cannot find installed tooth metadata: " ++ toothRepoPath).

Fixpoint metadataLoop (metadataList : list Metadata)
    (toothRepoPath : string) : result Metadata :=
  match metadataList with
  | [] => Err (NotFound toothRepoPath)
  | metadata :: rest =>
      if ToothRepoPath metadata =? toothRepoPath then Ok metadata
      else metadataLoop rest toothRepoPath
  end.

Definition GetMetadata (w : World) (ctx : Context) (toothRepoPath : string)
    : result Metadata :=
  metadataList <-
    wrap "failed to list all installed tooth metadata"
         (GetAllMetadata w ctx) ;;
  metadataLoop metadataList toothRepoPath.

(** *** [GetAvailableVersions], lines 97-143 *)

(** Lines 124-133, over the lines the scanner yields. The loop ends
    when [scanner.Scan()] returns false; [scanner.Err()] is not looked
    at. *)
Fixpoint versionLoop (lines : list string)
    (versionList : list semver.Version) : list semver.Version :=
  match lines with
  | [] => versionList
  | line :: rest =>
      let versionString := line in
      let versionString := strings.TrimPrefix versionString "v" in
      let versionString := strings.TrimSuffix versionString "+incompatible" in
      match semver_Parse versionString with
      | inl _ => versionLoop rest versionList
      | inr version => versionLoop rest (versionList ++ [version])
      end
  end.

(** [semver.Sort], which is [sort.Sort] on [semver.Versions]. *)
Definition semver_Sort (versions : list semver.Version)
    : list semver.Version :=
  sort_Sort semver.LT versions.

(** [versionList[i] = v], for [i] within the list. *)
Fixpoint store (versionList : list semver.Version) (i : nat)
    (v : semver.Version) : list semver.Version :=
  match versionList, i with
  | [], _ => []
  | _ :: rest, O => v :: rest
  | x :: rest, S i' => x :: store rest i' v
  end.

(** [versionList[i], versionList[j] = versionList[j], versionList[i]],
    for [i] and [j] within the list. *)
Definition swap (versionList : list semver.Version) (i j : nat)
    : list semver.Version :=
  match nth_error versionList i, nth_error versionList j with
  | Some vi, Some vj => store (store versionList i vj) j vi
  | _, _ => versionList
  end.

(** Lines 138-140; [steps] bounds the number of iterations, and half the
    length of the list is enough. *)
Fixpoint reverseLoop (steps : nat) (versionList : list semver.Version)
    (i j : nat) : list semver.Version :=
  match steps with
  | O => versionList
  | S steps' =>
      if (i <? j)%nat
      then reverseLoop steps' (swap versionList i j) (i + 1) (j - 1)
      else versionList
  end.

Definition GetAvailableVersions (w : World) (ctx : Context)
    (toothRepoPath : string) : result (list semver.Version) :=
  match module_CheckPath toothRepoPath with
  | Some _ => Err (New ("invalid repository path: " ++ toothRepoPath))
  | None =>
      goModuleProxyURL <-
        wrap "failed to get go module proxy URL" (GoModuleProxyURL ctx) ;;
      versionURL <-
        wrap "failed to generate version list URL"
             (network_GenerateGoModuleVersionListURL toothRepoPath
                                                     goModuleProxyURL) ;;
      content <-
        wrap "failed to fetch version list"
             (network_GetContent w versionURL) ;;
      let versionList := versionLoop (bufio.Scan content) [] in
      let versionList := semver_Sort versionList in
      Ok (reverseLoop (List.length versionList) versionList
                      0 (List.length versionList - 1))
  end.

(** *** [GetLatestStableVersion], lines 147-163 *)

(** The error of line 162, the spec's [NoStableVersion]. *)
Definition NoStableVersion : error :=
  New "cannot find latest stable version".

Fixpoint stableLoop (versionList : list semver.Version)
    : result semver.Version :=
  match versionList with
  | [] => Err NoStableVersion
  | version :: rest =>
      if (List.length (semver.Pre version) =? 0)%nat then Ok version
      else stableLoop rest
  end.

Definition GetLatestStableVersion (w : World) (ctx : Context)
    (toothRepoPath : string) : result semver.Version :=
  versionList <-
    wrap "failed to get available version list"
         (GetAvailableVersions w ctx toothRepoPath) ;;
  stableLoop versionList.

End UtilsGo.

(** * Reference implementations of the collaborators

    The examples below run the embedding on these. *)

Module Ref.

(** ** Paths *)

(** Modelled from the spec: a path is the list of its items, written
    with "/" between them. *)
Definition Path : Type := list string.

(** Modelled from the spec: [Parse] normalizes the separators by
    dropping empty items; the path that cannot be parsed is here one
    with a ".." item. *)
Definition Parse (s : string) : result Path :=
  let items :=
    filter (fun item => negb (item =? "")) (strings.SplitByte "/" s) in
  if existsb (fun item => item =? "..") items
  then Err (New ("invalid path: " ++ s))
  else Ok items.

(** Modelled from the spec: [MustParse] is [Parse] for a text known to
    parse; the panic on any other text is not represented. *)
Definition MustParse (s : string) : Path :=
  match Parse s with
  | inr p => p
  | inl _ => []
  end.

(** Modelled from the spec: the items with "/" between them. *)
Definition String (p : Path) : string := String.concat "/" p.

(** Modelled from the spec: the items of [prefix] are the first items of
    [p]. *)
Fixpoint HasPrefix (p prefix : Path) : bool :=
  match prefix, p with
  | [], _ => true
  | x :: prefix', y :: p' => (x =? y) && HasPrefix p' prefix'
  | _ :: _, [] => false
  end.

(** Modelled from the spec: "prefix-strip"; a path without the prefix is
    left as it is. *)
Definition TrimPrefix (p prefix : Path) : Path :=
  if HasPrefix p prefix then skipn (List.length prefix) p else p.

(** Modelled from the spec: the items two paths start with in common. *)
Fixpoint commonPrefix (a b : Path) : Path :=
  match a, b with
  | x :: a', y :: b' => if x =? y then x :: commonPrefix a' b' else []
  | _, _ => []
  end.

(** Modelled from the spec: "longest-common-prefix" of all the paths;
    "a single file's common prefix is itself". *)
Definition ExtractLongestCommonPath (paths : list Path) : Path :=
  match paths with
  | [] => []
  | p :: rest => fold_left commonPrefix rest p
  end.

(** Modelled from the spec: "parent"; the empty path has none. *)
Definition Dir (p : Path) : result Path :=
  match p with
  | [] => Err (New "cannot get directory of empty path")
  | _ :: _ => Ok (removelast p)
  end.

(** Modelled from the spec: the path without items is the empty path. *)
Definition IsEmpty (p : Path) : bool :=
  match p with
  | [] => true
  | _ :: _ => false
  end.

(** Modelled from the spec: the reference implementation of the package
    [internal/path]; [Join] appends the items. *)
#[export] Instance paths : path.API := {
  path.Path := Path;
  path.MakeEmpty := [];
  path.Parse := Parse;
  path.MustParse := MustParse;
  path.ExtractLongestCommonPath := ExtractLongestCommonPath;
  path.Dir := Dir;
  path.HasPrefix := HasPrefix;
  path.IsEmpty := IsEmpty;
  path.Join := @app string;
  path.LocalString := String;
  path.String := String;
  path.TrimPrefix := TrimPrefix
}.

(** ** Sorting: insertion sort

    A stand-in for [sort.Sort] and [sort.Slice]; the theorems rely on
    the contract of the library only. Like the insertion sort the
    library runs on short slices, it leaves elements that compare equal
    in the order they came in. *)

(** [x] goes in front of the sorted [l], behind the elements below
    it. *)
Fixpoint insert {A : Type} (less : A -> A -> bool) (x : A) (l : list A)
    : list A :=
  match l with
  | [] => [x]
  | y :: l' => if less y x then y :: insert less x l' else x :: l
  end.

Definition sort (A : Type) (less : A -> A -> bool) (l : list A) : list A :=
  fold_right (insert less) [] l.

(** ** [semver.Parse]

    After [Parse] of [github.com/blang/semver/v4]: three numbers without
    leading zeroes that fit 64 bits, then the pre-release identifiers
    after "-" and the build identifiers after "+". *)

Definition isDigit (c : ascii) : bool :=
  (48 <=? N_of_ascii c)%N && (N_of_ascii c <=? 57)%N.

Definition isAlphaNum (c : ascii) : bool :=
  isDigit c
  || ((65 <=? N_of_ascii c)%N && (N_of_ascii c <=? 90)%N)
  || ((97 <=? N_of_ascii c)%N && (N_of_ascii c <=? 122)%N)
  || Ascii.eqb c "-".

Fixpoint containsOnly (ok : ascii -> bool) (s : string) : bool :=
  match s with
  | EmptyString => true
  | String.String c rest => ok c && containsOnly ok rest
  end.

Definition hasLeadingZeroes (s : string) : bool :=
  match s with
  | String.String "0" (String.String _ _) => true
  | _ => false
  end.

Fixpoint digitsValue (acc : N) (s : string) : N :=
  match s with
  | EmptyString => acc
  | String.String c rest => digitsValue (acc * 10 + (N_of_ascii c - 48))%N rest
  end.

(** [strconv.ParseUint(s, 10, 64)] on a string of digits. *)
Definition ParseUint (s : string) : option N :=
  if s =? "" then None
  else if (digitsValue 0 s <? 2 ^ 64)%N then Some (digitsValue 0 s)
  else None.

Definition parseNumber (s : string) : option N :=
  if negb (containsOnly isDigit s) then None
  else if hasLeadingZeroes s then None
  else ParseUint s.

(** The text before the first [sep] and the text after it. *)
Fixpoint cut (sep : ascii) (s : string) : option (string * string) :=
  match s with
  | EmptyString => None
  | String.String c rest =>
      if Ascii.eqb c sep then Some (EmptyString, rest)
      else match cut sep rest with
           | Some (before, after) => Some (String.String c before, after)
           | None => None
           end
  end.

Definition NewPRVersion (s : string) : option semver.PRVersion :=
  if s =? "" then None
  else if containsOnly isDigit s
  then if hasLeadingZeroes s then None
       else match ParseUint s with
            | Some n => Some {| semver.VersionStr := "";
                                semver.VersionNum := n;
                                semver.IsNum := true |}
            | None => None
            end
  else if containsOnly isAlphaNum s
  then Some {| semver.VersionStr := s;
               semver.VersionNum := 0;
               semver.IsNum := false |}
  else None.

Fixpoint parsePre (parts : list string) : option (list semver.PRVersion) :=
  match parts with
  | [] => Some []
  | part :: rest =>
      match NewPRVersion part, parsePre rest with
      | Some pr, Some prs => Some (pr :: prs)
      | _, _ => None
      end
  end.

Definition validBuild (parts : list string) : bool :=
  forallb (fun part => negb (part =? "") && containsOnly isAlphaNum part)
          parts.

Definition invalidVersion : error := New "invalid version".

Definition semverParse (s : string) : result semver.Version :=
  match cut "." s with
  | None => Err invalidVersion
  | Some (majorStr, s1) =>
      match cut "." s1 with
      | None => Err invalidVersion
      | Some (minorStr, s2) =>
          let (patchStr, build) :=
            match cut "+" s2 with
            | Some (before, after) => (before, strings.SplitByte "." after)
            | None => (s2, [])
            end in
          let (patchStr, prerelease) :=
            match cut "-" patchStr with
            | Some (before, after) => (before, strings.SplitByte "." after)
            | None => (patchStr, [])
            end in
          match parseNumber majorStr, parseNumber minorStr,
                parseNumber patchStr, parsePre prerelease with
          | Some major, Some minor, Some patch, Some pre =>
              if validBuild build
              then Ok {| semver.Major := major;
                         semver.Minor := minor;
                         semver.Patch := patch;
                         semver.Pre := pre;
                         semver.Build := build |}
              else Err invalidVersion
          | _, _, _, _ => Err invalidVersion
          end
      end
  end.

(** ** The other functions *)

Definition lowerByte (c : ascii) : ascii :=
  if (65 <=? N_of_ascii c)%N && (N_of_ascii c <=? 90)%N
  then ascii_of_N (N_of_ascii c + 32)
  else c.

(** A stand-in for [strings.ToLower]: it is the library function on
    ASCII text, and leaves the letters beyond ASCII, which the library
    lowers as well, as they are. *)
Fixpoint ToLower (s : string) : string :=
  match s with
  | EmptyString => EmptyString
  | String.String c rest => String.String (lowerByte c) (ToLower rest)
  end.

(** Modelled from the spec: [zip.GetFilePaths] is missing from the
    sources; it "enumerates all entry paths", here the parsed names of
    the entries. *)
Fixpoint parseNames (files : list gozip.File) : result (list Path) :=
  match files with
  | [] => Ok []
  | file :: rest =>
      p <- Parse (gozip.Name file) ;;
      ps <- parseNames rest ;;
      Ok (p :: ps)
  end.

(** Modelled from the spec: [MakeMetadata] is missing from the sources
    and the decoding of JSON is outside the spec; this decoder knows the
    manifests of [table] by their text and rejects any other text. *)
Fixpoint decode (table : list (string * Metadata)) (text : string)
    : result Metadata :=
  match table with
  | [] => Err (New "invalid manifest")
  | (known, m) :: rest => if known =? text then Ok m else decode rest text
  end.

(** A stand-in for [module.CheckPath], with some of its rules: the path
    is not empty, none of its elements is, and the first one has a
    dot. *)
Definition CheckPath (p : string) : option error :=
  let elements := strings.SplitByte "/" p in
  if (p =? "")
     || existsb (fun element => element =? "") elements
     || negb (match elements with
              | first :: _ => strings.Contains first "."
              | [] => false
              end)
  then Some (New ("malformed module path " ++ p))
  else None.

Definition lib (table : list (string * Metadata)) : @Lib paths := {|
  URL := string;
  zip_GetFilePaths := fun r => parseNames (gozip.Files r);
  MakeMetadata := decode table;
  filepath_Join := fun dir name => (dir ++ "/" ++ name)%string;
  module_CheckPath := CheckPath;
  network_GenerateGoModuleVersionListURL := fun p proxy =>
    Ok (proxy ++ "/" ++ p ++ "/@v/list")%string;
  semver_Parse := semverParse;
  strings_ToLower := ToLower;
  sort_Sort := sort;
  sort_Slice := sort
|}.

End Ref.

(** * A small world for the examples *)

Module Demo.

Definition rule (src dest : string) : RawMetadataFilesPlaceItem :=
  {| Src := src; Dest := dest |}.

Definition manifest (tooth assetURL : string)
    (place : list RawMetadataFilesPlaceItem) : Metadata :=
  {| rawMetadata := {| Tooth := tooth;
                       RawAssetURL := assetURL;
                       Files := {| Place := place |} |} |}.

(** A package that carries its own files. *)
Definition selfManifest : Metadata :=
  manifest "example.com/pkg" ""
           [rule "assets/*" "out"; rule "docs/guide.md" "guide.md"].

(** A package whose files are in another archive. *)
Definition extManifest : Metadata :=
  manifest "example.com/ext" "https://example.com/ext-assets.zip"
           [rule "bin/*" "tools"].

Definition singleManifest : Metadata :=
  manifest "Example.com/Alpha" "" [].

(** A package whose path starts with a capital and ends the alphabet. *)
Definition zetaManifest : Metadata :=
  manifest "Example.com/Zeta" "" [].

Definition table : list (string * Metadata) :=
  [("manifest of pkg", selfManifest);
   ("manifest of ext", extManifest);
   ("manifest of alpha", singleManifest);
   ("manifest of zeta", zetaManifest)].

#[export] Instance lib : @Lib Ref.paths := Ref.lib table.

Definition entry (name content : string) : gozip.File :=
  {| gozip.Name := name;
     gozip.Open := Ok {| gozip.ReadAll := Ok content |} |}.

Definition pkgZip : gozip.ReadCloser :=
  {| gozip.Files := [entry "pkgs/A/tooth.json" "manifest of pkg";
                     entry "pkgs/A/assets/a.png" "png";
                     entry "pkgs/A/assets/sub/b.png" "png";
                     entry "pkgs/A/other/c.png" "png"] |}.

Definition extZip : gozip.ReadCloser :=
  {| gozip.Files := [entry "tooth.json" "manifest of ext";
                     entry "bin/tool" "elf"] |}.

Definition singleZip : gozip.ReadCloser :=
  {| gozip.Files := [entry "tooth.json" "manifest of alpha"] |}.

Definition noSuchFile {A : Type} : result A := Err (New "no such file").

Fixpoint lookup {A : Type} (files : list (string * result A))
    (name : string) : result A :=
  match files with
  | [] => noSuchFile
  | (known, content) :: rest =>
      if known =? name then content else lookup rest name
  end.

Definition fetch (index : result string) (url : string) : result string :=
  if url =? "https://proxy.example/example.com/pkg/@v/list"
  then index else noSuchFile.

(** A world with the three archives, the given store of persisted
    manifests under [lip/metadata] and the given version index. *)
Definition world (store : list (string * result string))
    (index : result string) : @World Ref.paths lib :=
  @Build_World Ref.paths lib
    (lookup [("pkg.zip", Ok pkgZip); ("ext.zip", Ok extZip);
             ("single.zip", Ok singleZip)])
    (fun pattern =>
       if pattern =? "lip/metadata/*.json" then Ok (map fst store)
       else Ok [])
    (lookup store)
    (fetch index).

Definition ctx : @Context Ref.paths lib :=
  @Build_Context Ref.paths lib (Ok ["lip"; "metadata"])
                 (Ok "https://proxy.example").

Definition goodStore : list (string * result string) :=
  [("lip/metadata/1.json", Ok "manifest of pkg");
   ("lip/metadata/2.json", Ok "manifest of alpha");
   ("lip/metadata/3.json", Ok "manifest of ext")].

(** The second file of this store is not a manifest. *)
Definition brokenStore : list (string * result string) :=
  [("lip/metadata/1.json", Ok "manifest of pkg");
   ("lip/metadata/2.json", Ok "not a manifest");
   ("lip/metadata/3.json", Ok "manifest of ext")].

(** The rule and the candidates of the spec's example of a wildcard. *)
Definition wildcardManifest : Metadata :=
  manifest "example.com/pkg" "" [rule "assets/*" "out"].

Definition candidates : list Ref.Path :=
  [["assets"; "a.png"]; ["assets"; "sub"; "b.png"]; ["other"; "c.png"]].

(** The entries of [pkgZip]. *)
Definition pkgPaths : list Ref.Path :=
  [["pkgs"; "A"; "tooth.json"]; ["pkgs"; "A"; "assets"; "a.png"];
   ["pkgs"; "A"; "assets"; "sub"; "b.png"]; ["pkgs"; "A"; "other"; "c.png"]].

(** The entries of [pkgZip] below its root. *)
Definition pkgCandidates : list Ref.Path :=
  [["tooth.json"]; ["assets"; "a.png"]; ["assets"; "sub"; "b.png"];
   ["other"; "c.png"]].

(** What [MakeArchive] makes of [pkgZip]. *)
Definition pkgArchive : @Archive Ref.paths :=
  @Build_Archive Ref.paths
    (manifest "example.com/pkg" ""
              [rule "assets/a.png" "out/a.png";
               rule "assets/sub/b.png" "out/sub/b.png";
               rule "docs/guide.md" "guide.md"])
    ["pkg.zip"] ["pkgs"; "A"].

Definition singleArchive : @Archive Ref.paths :=
  @Build_Archive Ref.paths singleManifest ["single.zip"] [].

Definition extArchive : @Archive Ref.paths :=
  @Build_Archive Ref.paths
    (manifest "example.com/ext" "https://example.com/ext-assets.zip"
              [rule "bin/tool" "tools/tool"])
    ["assets.zip"] [].

Definition newline : string := String "010" EmptyString.

(** The version lines of the spec's example. *)
Definition index : string :=
  "v1.2.3" ++ newline ++ "2.0.0+incompatible" ++ newline
  ++ "not-a-version" ++ newline ++ "v1.3.0-rc1" ++ newline.

Fixpoint repeatByte (c : ascii) (n : nat) (rest : string) : string :=
  match n with
  | O => rest
  | S n' => String c (repeatByte c n' rest)
  end.

(** A body whose first line has [bufio.MaxScanTokenSize] bytes and whose
    second line is a version. *)
Definition longIndex : string :=
  repeatByte "x" (N.to_nat bufio.MaxScanTokenSize)
             (newline ++ "v1.0.0" ++ newline).

(** An index of pre-releases only. *)
Definition preIndex : string :=
  "v1.0.0-rc1" ++ newline ++ "v1.0.0-beta.2" ++ newline.

(** An index whose highest version is a pre-release. *)
Definition rcIndex : string :=
  "v1.2.3" ++ newline ++ "v3.0.0-rc1" ++ newline ++ "v2.0.0" ++ newline.

(** The worlds of the examples. *)
Definition goodWorld : @World Ref.paths lib := world goodStore (Ok index).

Definition brokenWorld : @World Ref.paths lib :=
  world brokenStore (Ok index).

Definition longWorld : @World Ref.paths lib :=
  world goodStore (Ok longIndex).

Definition rcWorld : @World Ref.paths lib := world goodStore (Ok rcIndex).

Definition version (major minor patch : N) (pre : list semver.PRVersion)
    : semver.Version :=
  {| semver.Major := major; semver.Minor := minor; semver.Patch := patch;
     semver.Pre := pre; semver.Build := [] |}.

Definition alpha (s : string) : semver.PRVersion :=
  {| semver.VersionStr := s; semver.VersionNum := 0; semver.IsNum := false |}.

(** ** More of the small world *)

(** A manifest whose second rule has a source prefix that does not
    parse, and whose third rule has such a destination. *)
Definition badManifest : Metadata :=
  manifest "example.com/bad" ""
           [rule "assets/*" "out"; rule "../*" "x"; rule "bin/*" ".."].

(** A manifest without wildcard rules. *)
Definition plainManifest : Metadata :=
  manifest "example.com/plain" ""
           [rule "README.md" "doc/README.md"; rule "lib*.so" "lib"].

(** An archive with two entries of the name of the manifest. *)
Definition dupZip : gozip.ReadCloser :=
  {| gozip.Files := [entry "a/tooth.json" "manifest of alpha";
                     entry "a/readme" "text";
                     entry "a/tooth.json" "not a manifest"] |}.

Definition dupPaths : list Ref.Path :=
  [["a"; "tooth.json"]; ["a"; "readme"]; ["a"; "tooth.json"]].

(** An archive without a manifest. *)
Definition bareZip : gozip.ReadCloser :=
  {| gozip.Files := [entry "a/readme" "text"; entry "a/main.go" "go"] |}.

(** A world with these two archives, an empty store and no index. *)
Definition bareWorld : @World Ref.paths lib :=
  @Build_World Ref.paths lib
    (lookup [("dup.zip", Ok dupZip); ("bare.zip", Ok bareZip)])
    (fun _ => Ok [])
    (lookup [])
    (fetch noSuchFile).

Definition dupArchive : @Archive Ref.paths :=
  @Build_Archive Ref.paths singleManifest ["dup.zip"] ["a"].

Definition preWorld : @World Ref.paths lib := world goodStore (Ok preIndex).

(** The entries of [extZip]. *)
Definition extPaths : list Ref.Path := [["tooth.json"]; ["bin"; "tool"]].

(** The package of [extManifest] below the directory [pkgs/B]: the rule
    [bin/*] of its manifest names the tool from the root of the
    package. *)
Definition nestedZip : gozip.ReadCloser :=
  {| gozip.Files := [entry "pkgs/B/tooth.json" "manifest of ext";
                     entry "pkgs/B/bin/tool" "elf"] |}.

Definition nestedPaths : list Ref.Path :=
  [["pkgs"; "B"; "tooth.json"]; ["pkgs"; "B"; "bin"; "tool"]].

Definition nestedWorld : @World Ref.paths lib :=
  @Build_World Ref.paths lib
    (lookup [("nested.zip", Ok nestedZip)])
    (fun _ => Ok [])
    (lookup [])
    (fetch noSuchFile).

(** What [MakeArchive] makes of [nestedZip] with an external asset
    archive: the rule [bin/*] is held against [pkgs/B/bin/tool], not
    against [bin/tool], and matches nothing. *)
Definition nestedArchive : @Archive Ref.paths :=
  @Build_Archive Ref.paths
    (manifest "example.com/ext" "https://example.com/ext-assets.zip" [])
    ["assets.zip"] [].

(** A store whose order by the lowered paths is not the order of the
    paths as they are: [Example.com/Zeta] is below [example.com/ext]
    byte by byte, and above it without regard to case. *)
Definition caseStore : list (string * result string) :=
  [("lip/metadata/1.json", Ok "manifest of zeta");
   ("lip/metadata/2.json", Ok "manifest of pkg");
   ("lip/metadata/3.json", Ok "manifest of alpha");
   ("lip/metadata/4.json", Ok "manifest of ext")].

Definition caseWorld : @World Ref.paths lib := world caseStore (Ok index).

End Demo.

(** * What the specification says, as definitions *)

Section SpecDefinitions.

Context {P : path.API} {L : Lib}.
Import path.

(** The concrete rule the spec gives for one candidate of a wildcard
    rule with the given prefixes. *)
Definition concreteRule (sourcePrefix destPrefix candidatePath : Path)
    : RawMetadataFilesPlaceItem :=
  {| Src := String candidatePath;
     Dest := String (Join destPrefix
                          (TrimPrefix candidatePath sourcePrefix)) |}.

(** What one rule contributes to the output (spec, 4.2): itself when its
    [Src] does not end in the marker, and otherwise one concrete rule
    for every candidate, in order, that has the source prefix as a
    path-prefix. *)
Definition expansion (candidatePaths : list Path)
    (rule : RawMetadataFilesPlaceItem) : list RawMetadataFilesPlaceItem :=
  if negb (strings.HasSuffix (Src rule) wildcard) then [rule]
  else
    match Parse (strings.TrimSuffix (Src rule) wildcard),
          Parse (Dest rule) with
    | inr sourcePrefix, inr destPrefix =>
        map (concreteRule sourcePrefix destPrefix)
            (filter (fun candidatePath =>
                       HasPrefix candidatePath sourcePrefix)
                    candidatePaths)
    | _, _ => []
    end.

(** [ResolvePlacement] of the spec, when no path fails to parse. *)
Definition ResolvePlacement (rules : list RawMetadataFilesPlaceItem)
    (candidatePaths : list Path) : list RawMetadataFilesPlaceItem :=
  flat_map (expansion candidatePaths) rules.

(** The source prefix and the destination of a wildcard rule parse. *)
Definition parses (rule : RawMetadataFilesPlaceItem) : bool :=
  isOk (Parse (strings.TrimSuffix (Src rule) wildcard))
  && isOk (Parse (Dest rule)).

Definition wellFormedRule (rule : RawMetadataFilesPlaceItem) : bool :=
  implb (strings.HasSuffix (Src rule) wildcard) (parses rule).

(** The invariant the spec states for the rules of a constructed
    [Metadata] (spec, 3), against the candidate list they were resolved
    against. *)
Definition resolvedInvariant (candidatePaths : list Path)
    (rules : list RawMetadataFilesPlaceItem) : Prop :=
  forall rule, In rule rules ->
    strings.Contains (Src rule) wildcard = false
    /\ exists candidatePath,
         In candidatePath candidatePaths /\ String candidatePath = Src rule.

(** [MakeArchive] has opened the archive [r], listed its entries
    [filePaths], inferred the root [filePathRoot] and parsed the manifest
    [m] found there (lines 23-72). *)
Definition reachesManifest (w : World) (archiveFilePath : Path)
    (r : gozip.ReadCloser) (filePaths : list Path) (filePathRoot : Path)
    (m : Metadata) : Prop :=
  gozip_OpenReader w (LocalString archiveFilePath) = inr r
  /\ zip_GetFilePaths r = inr filePaths
  /\ inferRoot filePaths = inr filePathRoot
  /\ readManifest r filePathRoot = inr m.

(** A manifest file of the store loads: it is read and it parses. *)
Definition loadMetadataFile (w : World) (filePath : string)
    : result Metadata :=
  jsonBytes <- wrap "failed to read metadata file" (os_ReadFile w filePath) ;;
  wrap "failed to parse metadata file" (MakeMetadata jsonBytes).

(** Every file of the store loads. *)
Definition allLoad (w : World) (filePaths : list string) : bool :=
  forallb (fun filePath => isOk (loadMetadataFile w filePath)) filePaths.

(** The version a line of the index stands for, if any (spec, 4.4). *)
Definition lineVersion (line : string) : option semver.Version :=
  match semver_Parse
          (strings.TrimSuffix (strings.TrimPrefix line "v") "+incompatible")
  with
  | inr v => Some v
  | inl _ => None
  end.

Fixpoint parsedVersions (lines : list string) : list semver.Version :=
  match lines with
  | [] => []
  | line :: rest =>
      match lineVersion line with
      | Some v => v :: parsedVersions rest
      | None => parsedVersions rest
      end
  end.

(** The lines of a response body: the text between its newlines, without
    the carriage return that may end a line, up to the last newline or,
    when text follows it, up to the end. *)
Definition bodyLines (content : string) : list string :=
  let segs := bufio.segments content in
  map bufio.dropCR
      (if last segs "" =? "" then removelast segs else segs).

(** Descending precedence: no version is lower than a later one. *)
Definition descending (versions : list semver.Version) : Prop :=
  StronglySorted (fun a b => semver.LT a b = false) versions.

End SpecDefinitions.

(** A text without regard to case, for the letters of ASCII: the
    capitals A to Z stand for the small letters. *)
Definition foldByte (c : ascii) : ascii :=
  match c with
  | "A" => "a" | "B" => "b" | "C" => "c" | "D" => "d" | "E" => "e"
  | "F" => "f" | "G" => "g" | "H" => "h" | "I" => "i" | "J" => "j"
  | "K" => "k" | "L" => "l" | "M" => "m" | "N" => "n" | "O" => "o"
  | "P" => "p" | "Q" => "q" | "R" => "r" | "S" => "s" | "T" => "t"
  | "U" => "u" | "V" => "v" | "W" => "w" | "X" => "x" | "Y" => "y"
  | "Z" => "z"
  | _ => c
  end%char.

Fixpoint foldCase (s : string) : string :=
  match s with
  | EmptyString => EmptyString
  | String c rest => String (foldByte c) (foldCase rest)
  end.

(** Ascending, case-insensitive order of the repository paths (spec,
    4.3): the path of a manifest, with its case folded by [fold], is at
    most the folded path of every manifest after it, in the order of
    byte strings. *)
Definition ascendingCaseInsensitive (fold : string -> string)
    (metadataList : list Metadata) : Prop :=
  StronglySorted
    (fun a b => String.leb (fold (ToothRepoPath a))
                           (fold (ToothRepoPath b)) = true)
    metadataList.

(** ** Orders given by a comparison *)

(** A comparison function that orders its carrier as a total preorder. *)
Definition PreorderCmp {A : Type} (cmp : A -> A -> comparison) : Prop :=
  (forall a b, cmp a b = CompOpp (cmp b a))
  /\ (forall a b c, cmp a b <> Gt -> cmp b c <> Gt -> cmp a c <> Gt).

Definition lessOf {A : Type} (cmp : A -> A -> comparison) (a b : A) : bool :=
  match cmp a b with
  | Lt => true
  | _ => false
  end.

(** The lexicographic step: the first comparison decides unless it is
    [Eq]. *)
Definition lexc (first rest : comparison) : comparison :=
  match first with
  | Eq => rest
  | Lt => Lt
  | Gt => Gt
  end.

(** The comparison of the pre-release parts in [Compare]: a version
    without one is above a version with one. *)
Definition preCompare (v o : semver.Version) : comparison :=
  match semver.Pre v, semver.Pre o with
  | [], [] => Eq
  | [], _ :: _ => Gt
  | _ :: _, [] => Lt
  | _, _ => semver.PreCompare (semver.Pre v) (semver.Pre o)
  end.

(** * Proofs *)

(** ** The error monad *)

Lemma bind_inr {A B : Type} (r : result A) (k : A -> result B) (b : B) :
  bind r k = inr b -> exists a, r = inr a /\ k a = inr b.
Proof.
  destruct r as [e | a]; simpl; intros H; [discriminate | eauto].
Qed.

Lemma wrap_inr {A : Type} (msg : string) (r : result A) (a : A) :
  wrap msg r = inr a -> r = inr a.
Proof.
  destruct r; simpl; intros H; [discriminate | exact H].
Qed.

Lemma wrap_not_New {A : Type} (msg msg' : string) (r : result A) :
  wrap msg r <> inl (New msg').
Proof.
  destruct r; simpl; intros H; discriminate.
Qed.

Lemma isOk_inr {A : Type} (r : result A) :
  isOk r = true -> exists a, r = inr a.
Proof.
  destruct r; simpl; intros H; [discriminate | eauto].
Qed.

Lemma isOk_false {A : Type} (r : result A) :
  isOk r = false -> exists e, r = inl e.
Proof.
  destruct r; simpl; intros H; [eauto | discriminate].
Qed.

(** ** Wildcard resolution *)

Section Wildcards.

Context {P : path.API} {L : Lib}.
Import path.

Lemma expandLoop_spec (sourcePrefix destPrefix : Path)
    (filePaths : list Path) (newPlace : list RawMetadataFilesPlaceItem) :
  expandLoop sourcePrefix destPrefix filePaths newPlace
  = newPlace ++ map (concreteRule sourcePrefix destPrefix)
                    (filter (fun c => HasPrefix c sourcePrefix) filePaths).
Proof.
  revert newPlace.
  induction filePaths as [| filePath rest IH]; intros newPlace; simpl.
  - now rewrite app_nil_r.
  - destruct (HasPrefix filePath sourcePrefix); simpl.
    + rewrite IH, <- app_assoc. reflexivity.
    + apply IH.
Qed.

Lemma placeLoop_ok (place : list RawMetadataFilesPlaceItem)
    (filePaths : list Path) (newPlace : list RawMetadataFilesPlaceItem) :
  forallb wellFormedRule place = true ->
  placeLoop place filePaths newPlace
  = Ok (newPlace ++ ResolvePlacement place filePaths).
Proof.
  revert newPlace.
  induction place as [| rule rest IH]; intros newPlace Hwf; simpl.
  - now rewrite app_nil_r.
  - simpl in Hwf. apply andb_true_iff in Hwf as [Hrule Hrest].
    unfold wellFormedRule, parses in Hrule. unfold expansion at 1.
    destruct (strings.HasSuffix (Src rule) wildcard); simpl in *.
    + apply andb_true_iff in Hrule as [Hsrc Hdest].
      apply isOk_inr in Hsrc as [sourcePrefix Hsrc].
      apply isOk_inr in Hdest as [destPrefix Hdest].
      rewrite Hsrc, Hdest. simpl.
      rewrite IH by exact Hrest.
      rewrite expandLoop_spec, <- app_assoc. reflexivity.
    + rewrite IH by exact Hrest. rewrite <- app_assoc. reflexivity.
Qed.

(** The first rule that does not parse stops the resolution. *)
Lemma placeLoop_err (before after : list RawMetadataFilesPlaceItem)
    (rule : RawMetadataFilesPlaceItem) (filePaths : list Path)
    (newPlace : list RawMetadataFilesPlaceItem) :
  forallb wellFormedRule before = true ->
  wellFormedRule rule = false ->
  isOk (placeLoop (before ++ rule :: after) filePaths newPlace) = false.
Proof.
  revert newPlace.
  induction before as [| r rest IH]; intros newPlace Hwf Hrule; simpl.
  - unfold wellFormedRule, parses in Hrule.
    destruct (strings.HasSuffix (Src rule) wildcard); simpl in *;
      [| discriminate].
    destruct (Parse (strings.TrimSuffix (Src rule) wildcard)); simpl in *;
      [reflexivity |].
    destruct (Parse (Dest rule)); simpl in *; [reflexivity | discriminate].
  - simpl in Hwf. apply andb_true_iff in Hwf as [Hr Hrest].
    unfold wellFormedRule, parses in Hr.
    destruct (strings.HasSuffix (Src r) wildcard); simpl in *.
    + apply andb_true_iff in Hr as [Hsrc Hdest].
      apply isOk_inr in Hsrc as [sourcePrefix Hsrc].
      apply isOk_inr in Hdest as [destPrefix Hdest].
      rewrite Hsrc, Hdest. simpl. now apply IH.
    + now apply IH.
Qed.

Lemma populate_ok (m : Metadata) (candidatePaths : list Path) :
  forallb wellFormedRule (Place (Files (Raw m))) = true ->
  populateMetadataFilePlaceWildcards m candidatePaths
  = Ok {| rawMetadata :=
            setPlace (Raw m)
                     (ResolvePlacement (Place (Files (Raw m)))
                                       candidatePaths) |}.
Proof.
  intros Hwf. unfold populateMetadataFilePlaceWildcards.
  rewrite placeLoop_ok by exact Hwf. reflexivity.
Qed.

Lemma populate_err (m : Metadata) (candidatePaths : list Path) :
  forallb wellFormedRule (Place (Files (Raw m))) = false ->
  isOk (populateMetadataFilePlaceWildcards m candidatePaths) = false.
Proof.
  intros Hwf. unfold populateMetadataFilePlaceWildcards.
  assert (Hsplit : exists before rule after,
             Place (Files (Raw m)) = before ++ rule :: after
             /\ forallb wellFormedRule before = true
             /\ wellFormedRule rule = false).
  { induction (Place (Files (Raw m))) as [| r rest IH]; simpl in Hwf;
      [discriminate |].
    destruct (wellFormedRule r) eqn:Hr; simpl in Hwf.
    - destruct (IH Hwf) as (before & rule & after & -> & Hb & Hrule).
      exists (r :: before), rule, after. simpl. rewrite Hr. auto.
    - exists [], r, rest. auto. }
  destruct Hsplit as (before & rule & after & -> & Hb & Hrule).
  pose proof (@placeLoop_err before after rule candidatePaths [] Hb Hrule)
    as Herr.
  destruct (placeLoop (before ++ rule :: after) candidatePaths []);
    simpl in *; [reflexivity | discriminate].
Qed.

(** C1. Wildcard resolution returns the rules in their order, each rule
    whose [Src] does not end in the marker unchanged and each one whose
    [Src] does replaced by a concrete rule for every candidate, in the
    order of the candidates, that has the source prefix as a
    path-prefix; a wildcard rule no candidate matches contributes no
    rule. This is the output whenever the prefixes of the wildcard rules
    parse, and there is none, but the spec's [PathParseError], when one
    of them does not. *)
Theorem populateMetadataFilePlaceWildcards_spec
    (m : Metadata) (candidatePaths : list Path) :
  (forallb wellFormedRule (Place (Files (Raw m))) = true ->
   populateMetadataFilePlaceWildcards m candidatePaths
   = Ok {| rawMetadata :=
             setPlace (Raw m)
               (flat_map (expansion candidatePaths)
                         (Place (Files (Raw m)))) |})
  /\ (forallb wellFormedRule (Place (Files (Raw m))) = false ->
      isOk (populateMetadataFilePlaceWildcards m candidatePaths) = false)
  /\ (forall rule, strings.HasSuffix (Src rule) wildcard = false ->
        expansion candidatePaths rule = [rule])
  /\ (forall rule sourcePrefix destPrefix,
        strings.HasSuffix (Src rule) wildcard = true ->
        Parse (strings.TrimSuffix (Src rule) wildcard) = inr sourcePrefix ->
        Parse (Dest rule) = inr destPrefix ->
        expansion candidatePaths rule
        = map (fun candidatePath =>
                 {| Src := String candidatePath;
                    Dest := String (Join destPrefix
                                      (TrimPrefix candidatePath
                                                  sourcePrefix)) |})
              (filter (fun candidatePath =>
                         HasPrefix candidatePath sourcePrefix)
                      candidatePaths)
        /\ ((forall candidatePath, In candidatePath candidatePaths ->
               HasPrefix candidatePath sourcePrefix = false) ->
            expansion candidatePaths rule = [])).
Proof.
  split; [| split; [| split]].
  - apply populate_ok.
  - apply populate_err.
  - intros rule Hrule. unfold expansion. now rewrite Hrule.
  - intros rule sourcePrefix destPrefix Hrule Hsrc Hdest.
    unfold expansion. rewrite Hrule, Hsrc, Hdest. simpl.
    split; [reflexivity |].
    intros Hnone.
    replace (filter (fun c => HasPrefix c sourcePrefix) candidatePaths)
      with (@nil Path); [reflexivity |].
    symmetry. induction candidatePaths as [| c rest IH]; simpl;
      [reflexivity |].
    rewrite (Hnone c) by (now left). apply IH.
    intros c' Hc'. apply Hnone. now right.
Qed.

End Wildcards.

(** ** [MakeArchive] *)

Section MakeArchiveProofs.

Context {P : path.API} {L : Lib}.
Import path.

Lemma MakeArchive_reaches (w : World) (archiveFilePath assetPath : Path)
    (r : gozip.ReadCloser) (filePaths : list Path) (filePathRoot : Path)
    (m : Metadata) :
  reachesManifest w archiveFilePath r filePaths filePathRoot m ->
  MakeArchive w archiveFilePath assetPath
  = archiveFromManifest archiveFilePath assetPath filePaths filePathRoot m.
Proof.
  intros (Hopen & Hpaths & Hroot & Hm). unfold MakeArchive.
  rewrite Hopen. simpl. rewrite Hpaths. simpl.
  rewrite Hroot. simpl. rewrite Hm. reflexivity.
Qed.

Lemma inferRoot_not_New (filePaths : list Path) (msg : string) :
  inferRoot filePaths <> inl (New msg).
Proof.
  unfold inferRoot. destruct (List.length filePaths =? 1)%nat.
  - apply wrap_not_New.
  - discriminate.
Qed.

Lemma readManifest_not_ConfigMismatch (r : gozip.ReadCloser)
    (filePathRoot : Path) :
  readManifest r filePathRoot <> inl ConfigMismatch.
Proof.
  unfold readManifest.
  destruct (findFile _ _) as [file |]; [| discriminate].
  destruct (gozip.Open file) as [e | reader]; simpl; [discriminate |].
  destruct (gozip.ReadAll reader) as [e | bytes]; simpl; [discriminate |].
  apply wrap_not_New.
Qed.

(** Whatever [MakeArchive] returns, it has either failed before the
    validation, with another error than [ConfigMismatch], or reached the
    parsed manifest. *)
Lemma MakeArchive_progress (w : World) (archiveFilePath assetPath : Path) :
  (exists e, MakeArchive w archiveFilePath assetPath = inl e
             /\ e <> ConfigMismatch)
  \/ (exists r filePaths filePathRoot m,
        reachesManifest w archiveFilePath r filePaths filePathRoot m).
Proof.
  unfold MakeArchive.
  destruct (gozip_OpenReader w (LocalString archiveFilePath))
    as [e | r] eqn:Hopen; simpl;
    [left; eexists; split; [reflexivity | discriminate] |].
  destruct (zip_GetFilePaths r) as [e | filePaths] eqn:Hpaths; simpl;
    [left; eexists; split; [reflexivity | discriminate] |].
  destruct (inferRoot filePaths) as [e | filePathRoot] eqn:Hroot; simpl.
  { left. exists e. split; [reflexivity |].
    intros ->. exact (inferRoot_not_New _ Hroot). }
  destruct (readManifest r filePathRoot) as [e | m] eqn:Hm; simpl.
  { left. exists e. split; [reflexivity |].
    intros ->. exact (readManifest_not_ConfigMismatch _ _ Hm). }
  right. exists r, filePaths, filePathRoot, m. repeat split; assumption.
Qed.

Lemma reachesManifest_unique (w : World) (archiveFilePath : Path)
    r filePaths filePathRoot m r' filePaths' filePathRoot' m' :
  reachesManifest w archiveFilePath r filePaths filePathRoot m ->
  reachesManifest w archiveFilePath r' filePaths' filePathRoot' m' ->
  r = r' /\ filePaths = filePaths' /\ filePathRoot = filePathRoot' /\ m = m'.
Proof.
  intros (H1 & H2 & H3 & H4) (H1' & H2' & H3' & H4').
  assert (r = r') by congruence. subst r'.
  assert (filePaths = filePaths') by congruence. subst filePaths'.
  assert (filePathRoot = filePathRoot') by congruence. subst filePathRoot'.
  assert (m = m') by congruence. auto.
Qed.

(** The test of lines 74-75 holds exactly when one of the two is empty
    and the other is not. *)
Lemma mismatch_iff (m : Metadata) (assetPath : Path) :
  ((AssetURL m =? "") && negb (IsEmpty assetPath))
  || (negb (AssetURL m =? "") && IsEmpty assetPath) = true
  <-> (AssetURL m = "" /\ IsEmpty assetPath = false)
      \/ (AssetURL m <> "" /\ IsEmpty assetPath = true).
Proof.
  destruct (String.eqb_spec (AssetURL m) "") as [Hurl | Hurl];
    destruct (IsEmpty assetPath); simpl; split; intros H;
    try discriminate; try reflexivity; auto;
    destruct H as [[H1 H2] | [H1 H2]]; congruence.
Qed.

Lemma archiveFromManifest_ConfigMismatch
    (archiveFilePath assetPath : Path) (filePaths : list Path)
    (filePathRoot : Path) (m : Metadata) :
  archiveFromManifest archiveFilePath assetPath filePaths filePathRoot m
  = Err ConfigMismatch
  <-> (AssetURL m = "" /\ IsEmpty assetPath = false)
      \/ (AssetURL m <> "" /\ IsEmpty assetPath = true).
Proof.
  rewrite <- mismatch_iff. unfold archiveFromManifest.
  destruct (((AssetURL m =? "") && negb (IsEmpty assetPath))
            || (negb (AssetURL m =? "") && IsEmpty assetPath)).
  - split; reflexivity.
  - split; [| discriminate].
    destruct (IsEmpty assetPath);
      match goal with
      | |- context [populateMetadataFilePlaceWildcards ?m ?l] =>
          destruct (populateMetadataFilePlaceWildcards m l)
      end; simpl; discriminate.
Qed.

(** Past the validation: the two branches of lines 79-112. *)
Lemma archiveFromManifest_consistent
    (archiveFilePath assetPath : Path) (filePaths : list Path)
    (filePathRoot : Path) (m : Metadata) :
  (AssetURL m = "" /\ IsEmpty assetPath = true)
  \/ (AssetURL m <> "" /\ IsEmpty assetPath = false) ->
  archiveFromManifest archiveFilePath assetPath filePaths filePathRoot m
  = (resolved <-
       wrap resolveFailed
            (populateMetadataFilePlaceWildcards m
               (if IsEmpty assetPath
                then map (fun filePath => TrimPrefix filePath filePathRoot)
                         filePaths
                else filePaths)) ;;
     Ok {| metadata := resolved;
           assetArchiveFilePath :=
             if IsEmpty assetPath then archiveFilePath else assetPath;
           assetArchiveFilePathRoot :=
             if IsEmpty assetPath then filePathRoot else MakeEmpty |}).
Proof.
  intros H. unfold archiveFromManifest.
  destruct (String.eqb_spec (AssetURL m) "") as [Hurl | Hurl];
    destruct (IsEmpty assetPath); simpl;
    try reflexivity; destruct H as [[H1 H2] | [H1 H2]]; congruence.
Qed.

(** C2. The root [MakeArchive] works with is the longest common path of
    the entries [zip.GetFilePaths] lists, except that for an archive of
    one entry it is the directory of that entry. *)
Theorem MakeArchive_root (w : World) (archiveFilePath assetPath : Path)
    (r : gozip.ReadCloser) (filePaths : list Path) :
  (forall p : Path, ExtractLongestCommonPath [p] = p) ->
  gozip_OpenReader w (LocalString archiveFilePath) = inr r ->
  zip_GetFilePaths r = inr filePaths ->
  (List.length filePaths <> 1 ->
     inferRoot filePaths = Ok (ExtractLongestCommonPath filePaths)
     /\ MakeArchive w archiveFilePath assetPath
        = (m <- readManifest r (ExtractLongestCommonPath filePaths) ;;
           archiveFromManifest archiveFilePath assetPath filePaths
             (ExtractLongestCommonPath filePaths) m))
  /\ (forall entry, filePaths = [entry] ->
        inferRoot filePaths
        = wrap "failed to get directory of tooth.json" (Dir entry)
        /\ MakeArchive w archiveFilePath assetPath
           = (filePathRoot <-
                wrap "failed to get directory of tooth.json" (Dir entry) ;;
              m <- readManifest r filePathRoot ;;
              archiveFromManifest archiveFilePath assetPath filePaths
                                  filePathRoot m)).
Proof.
  intros Hsingle Hopen Hpaths.
  assert (Hmake : MakeArchive w archiveFilePath assetPath
                  = (filePathRoot <- inferRoot filePaths ;;
                     m <- readManifest r filePathRoot ;;
                     archiveFromManifest archiveFilePath assetPath filePaths
                                         filePathRoot m)).
  { unfold MakeArchive. rewrite Hopen. simpl. rewrite Hpaths. reflexivity. }
  split.
  - intros Hlen.
    assert (Hroot : inferRoot filePaths
                    = Ok (ExtractLongestCommonPath filePaths)).
    { unfold inferRoot.
      destruct (Nat.eqb_spec (List.length filePaths) 1);
        [contradiction | reflexivity]. }
    split; [exact Hroot |]. rewrite Hmake, Hroot. reflexivity.
  - intros entry ->.
    assert (Hroot : inferRoot [entry]
                    = wrap "failed to get directory of tooth.json"
                           (Dir entry)).
    { unfold inferRoot. simpl. now rewrite Hsingle. }
    split; [exact Hroot |]. rewrite Hmake, Hroot. reflexivity.
Qed.

(** C3. [MakeArchive] fails with [ConfigMismatch] if and only if it has
    parsed the manifest and exactly one of the manifest's [AssetURL] and
    the external asset archive path is non-empty; when both are empty or
    both are not, it goes on to the resolution of the wildcards. *)
Theorem MakeArchive_ConfigMismatch
    (w : World) (archiveFilePath assetPath : Path) :
  (MakeArchive w archiveFilePath assetPath = Err ConfigMismatch
   <-> exists r filePaths filePathRoot m,
         reachesManifest w archiveFilePath r filePaths filePathRoot m
         /\ ((AssetURL m = "" /\ IsEmpty assetPath = false)
             \/ (AssetURL m <> "" /\ IsEmpty assetPath = true)))
  /\ (forall r filePaths filePathRoot m,
        reachesManifest w archiveFilePath r filePaths filePathRoot m ->
        (AssetURL m = "" /\ IsEmpty assetPath = true)
        \/ (AssetURL m <> "" /\ IsEmpty assetPath = false) ->
        MakeArchive w archiveFilePath assetPath <> Err ConfigMismatch
        /\ MakeArchive w archiveFilePath assetPath
           = (resolved <-
                wrap resolveFailed
                     (populateMetadataFilePlaceWildcards m
                        (if IsEmpty assetPath
                         then map (fun filePath =>
                                     TrimPrefix filePath filePathRoot)
                                  filePaths
                         else filePaths)) ;;
              Ok {| metadata := resolved;
                    assetArchiveFilePath :=
                      if IsEmpty assetPath then archiveFilePath
                      else assetPath;
                    assetArchiveFilePathRoot :=
                      if IsEmpty assetPath then filePathRoot
                      else MakeEmpty |})).
Proof.
  split.
  - split.
    + intros Hfail.
      destruct (MakeArchive_progress w archiveFilePath assetPath)
        as [(e & He & Hne) | (r & filePaths & filePathRoot & m & Hreach)].
      * rewrite He in Hfail. injection Hfail as ->. contradiction.
      * exists r, filePaths, filePathRoot, m. split; [exact Hreach |].
        rewrite (MakeArchive_reaches assetPath Hreach) in Hfail.
        now apply archiveFromManifest_ConfigMismatch in Hfail.
    + intros (r & filePaths & filePathRoot & m & Hreach & Hcase).
      rewrite (MakeArchive_reaches assetPath Hreach).
      now apply archiveFromManifest_ConfigMismatch.
  - intros r filePaths filePathRoot m Hreach Hcase.
    rewrite (MakeArchive_reaches assetPath Hreach). split.
    + rewrite archiveFromManifest_ConfigMismatch.
      intros [[H1 H2] | [H1 H2]]; destruct Hcase as [[H3 H4] | [H3 H4]];
        congruence.
    + now apply archiveFromManifest_consistent.
Qed.

End MakeArchiveProofs.

(** ** The archive [MakeArchive] returns *)

Section ArchiveResult.

Context {P : path.API} {L : Lib}.
Import path.

Lemma MakeArchive_inr (w : World) (archiveFilePath assetPath : Path)
    (ar : Archive) :
  MakeArchive w archiveFilePath assetPath = inr ar ->
  exists r filePaths filePathRoot m,
    reachesManifest w archiveFilePath r filePaths filePathRoot m
    /\ archiveFromManifest archiveFilePath assetPath filePaths
                           filePathRoot m = inr ar.
Proof.
  intros Hmake.
  destruct (MakeArchive_progress w archiveFilePath assetPath)
    as [(e & He & _) | (r & filePaths & filePathRoot & m & Hreach)].
  - rewrite He in Hmake. discriminate.
  - exists r, filePaths, filePathRoot, m. split; [exact Hreach |].
    now rewrite <- (MakeArchive_reaches assetPath Hreach).
Qed.

Lemma archiveFromManifest_inr (archiveFilePath assetPath : Path)
    (filePaths : list Path) (filePathRoot : Path) (m : Metadata)
    (ar : Archive) :
  archiveFromManifest archiveFilePath assetPath filePaths filePathRoot m
  = inr ar ->
  (IsEmpty assetPath = true ->
     populateMetadataFilePlaceWildcards m
       (map (fun filePath => TrimPrefix filePath filePathRoot) filePaths)
     = inr (metadata ar)
     /\ assetArchiveFilePath ar = archiveFilePath
     /\ assetArchiveFilePathRoot ar = filePathRoot)
  /\ (IsEmpty assetPath = false ->
        populateMetadataFilePlaceWildcards m filePaths = inr (metadata ar)
        /\ assetArchiveFilePath ar = assetPath
        /\ assetArchiveFilePathRoot ar = MakeEmpty).
Proof.
  unfold archiveFromManifest.
  destruct (((AssetURL m =? "") && negb (IsEmpty assetPath))
            || (negb (AssetURL m =? "") && IsEmpty assetPath));
    [discriminate |].
  destruct (IsEmpty assetPath); intros H;
    apply bind_inr in H as (resolved & Hres & Hok);
    apply wrap_inr in Hres; injection Hok as <-; simpl;
    split; intros Hempty; try discriminate; auto.
Qed.

(** The archive [MakeArchive] returns, by the branch taken. *)
Lemma MakeArchive_resolution (w : World) (archiveFilePath assetPath : Path)
    (ar : Archive) :
  MakeArchive w archiveFilePath assetPath = inr ar ->
  exists r filePaths filePathRoot m,
    reachesManifest w archiveFilePath r filePaths filePathRoot m
    /\ populateMetadataFilePlaceWildcards m
         (if IsEmpty assetPath
          then map (fun filePath => TrimPrefix filePath filePathRoot)
                   filePaths
          else filePaths)
       = inr (metadata ar)
    /\ assetArchiveFilePath ar
       = (if IsEmpty assetPath then archiveFilePath else assetPath)
    /\ assetArchiveFilePathRoot ar
       = (if IsEmpty assetPath then filePathRoot else MakeEmpty).
Proof.
  intros Hmake.
  apply MakeArchive_inr in Hmake
    as (r & filePaths & filePathRoot & m & Hreach & Hfrom).
  exists r, filePaths, filePathRoot, m. split; [exact Hreach |].
  apply archiveFromManifest_inr in Hfrom as [Hself Hext].
  destruct (IsEmpty assetPath).
  - destruct (Hself eq_refl) as (H1 & H2 & H3). auto.
  - destruct (Hext eq_refl) as (H1 & H2 & H3). auto.
Qed.

(** C4. The two branches differ. Without an external asset archive
    [MakeArchive] resolves the wildcards against the entries with the
    root stripped and returns an archive that records its own path and
    the root; with one, it resolves them against the entries as they are
    and returns an archive that records the external path and the empty
    root. Each branch returns its archive whenever the resolution
    succeeds and fails with the error of the resolution otherwise, and
    an archive that is returned comes from the branch the external path
    selects. *)
Theorem MakeArchive_branches (w : World) (archiveFilePath assetPath : Path) :
  (forall r filePaths filePathRoot m,
     reachesManifest w archiveFilePath r filePaths filePathRoot m ->
     (IsEmpty assetPath = true -> AssetURL m = "" ->
      MakeArchive w archiveFilePath assetPath
      = (resolved <-
           wrap resolveFailed
                (populateMetadataFilePlaceWildcards m
                   (map (fun filePath => TrimPrefix filePath filePathRoot)
                        filePaths)) ;;
         Ok {| metadata := resolved;
               assetArchiveFilePath := archiveFilePath;
               assetArchiveFilePathRoot := filePathRoot |}))
     /\ (IsEmpty assetPath = false -> AssetURL m <> "" ->
         MakeArchive w archiveFilePath assetPath
         = (resolved <-
              wrap resolveFailed
                   (populateMetadataFilePlaceWildcards m filePaths) ;;
            Ok {| metadata := resolved;
                  assetArchiveFilePath := assetPath;
                  assetArchiveFilePathRoot := MakeEmpty |})))
  /\ (forall ar,
        MakeArchive w archiveFilePath assetPath = inr ar ->
        exists r filePaths filePathRoot m,
          reachesManifest w archiveFilePath r filePaths filePathRoot m
          /\ (IsEmpty assetPath = true ->
                populateMetadataFilePlaceWildcards m
                  (map (fun filePath => TrimPrefix filePath filePathRoot)
                       filePaths)
                = inr (metadata ar)
                /\ AssetArchiveFilePath ar = archiveFilePath
                /\ AssetArchiveFilePathRoot ar = filePathRoot)
          /\ (IsEmpty assetPath = false ->
                populateMetadataFilePlaceWildcards m filePaths
                = inr (metadata ar)
                /\ AssetArchiveFilePath ar = assetPath
                /\ AssetArchiveFilePathRoot ar = MakeEmpty)).
Proof.
  split.
  - intros r filePaths filePathRoot m Hreach.
    rewrite (MakeArchive_reaches assetPath Hreach). split.
    + intros Hempty Hurl.
      rewrite archiveFromManifest_consistent by (left; auto).
      now rewrite Hempty.
    + intros Hempty Hurl.
      rewrite archiveFromManifest_consistent by (right; auto).
      now rewrite Hempty.
  - intros ar Hmake.
    apply MakeArchive_resolution in Hmake
      as (r & filePaths & filePathRoot & m & Hreach & Hpop & Hpath & Hroot).
    exists r, filePaths, filePathRoot, m. split; [exact Hreach |].
    unfold AssetArchiveFilePath, AssetArchiveFilePathRoot.
    split; intros Hempty; rewrite Hempty in *; auto.
Qed.

(** Where a resolved rule comes from. *)
Lemma populate_rules (m resolved : Metadata) (candidatePaths : list Path) :
  populateMetadataFilePlaceWildcards m candidatePaths = inr resolved ->
  forall rule, In rule (Place (Files (Raw resolved))) ->
    (In rule (Place (Files (Raw m)))
     /\ strings.HasSuffix (Src rule) wildcard = false)
    \/ (exists wildcardRule sourcePrefix destPrefix candidatePath,
          In wildcardRule (Place (Files (Raw m)))
          /\ strings.HasSuffix (Src wildcardRule) wildcard = true
          /\ Parse (strings.TrimSuffix (Src wildcardRule) wildcard)
             = inr sourcePrefix
          /\ Parse (Dest wildcardRule) = inr destPrefix
          /\ In candidatePath candidatePaths
          /\ HasPrefix candidatePath sourcePrefix = true
          /\ rule = concreteRule sourcePrefix destPrefix candidatePath).
Proof.
  intros Hpop rule Hin.
  destruct (forallb wellFormedRule (Place (Files (Raw m)))) eqn:Hwf.
  - rewrite (populate_ok m candidatePaths Hwf) in Hpop.
    injection Hpop as <-. simpl in Hin.
    unfold ResolvePlacement in Hin.
    apply in_flat_map in Hin as (source & Hsource & Hexp).
    unfold expansion in Hexp.
    destruct (strings.HasSuffix (Src source) wildcard) eqn:Hwild;
      simpl in Hexp.
    + right.
      destruct (Parse (strings.TrimSuffix (Src source) wildcard))
        as [e | sourcePrefix] eqn:Hsrc; [contradiction |].
      destruct (Parse (Dest source)) as [e | destPrefix] eqn:Hdest;
        [contradiction |].
      apply in_map_iff in Hexp as (candidatePath & <- & Hcand).
      apply filter_In in Hcand as [Hcand Hprefix].
      exists source, sourcePrefix, destPrefix, candidatePath.
      repeat split; assumption.
    + left. destruct Hexp as [<- | []]. split; assumption.
  - pose proof (populate_err m candidatePaths Hwf) as Herr.
    rewrite Hpop in Herr. discriminate.
Qed.

(** C5, as the code has it. Every rule of the [Metadata] of an archive
    is either a rule of the manifest whose [Src] does not end in the
    marker, copied as it is, or the concrete rule of a candidate path,
    with the string of that path as its [Src]; the candidates are the
    entries the wildcards were resolved against. *)
Theorem MakeArchive_rules (w : World) (archiveFilePath assetPath : Path)
    (ar : Archive) :
  MakeArchive w archiveFilePath assetPath = inr ar ->
  exists r filePaths filePathRoot m candidatePaths,
    reachesManifest w archiveFilePath r filePaths filePathRoot m
    /\ candidatePaths
       = (if IsEmpty assetPath
          then map (fun filePath => TrimPrefix filePath filePathRoot)
                   filePaths
          else filePaths)
    /\ forall rule, In rule (Place (Files (Raw (metadata ar)))) ->
         (In rule (Place (Files (Raw m)))
          /\ strings.HasSuffix (Src rule) wildcard = false)
         \/ (exists candidatePath,
               In candidatePath candidatePaths
               /\ Src rule = String candidatePath
               /\ exists wildcardRule sourcePrefix destPrefix,
                    In wildcardRule (Place (Files (Raw m)))
                    /\ strings.HasSuffix (Src wildcardRule) wildcard = true
                    /\ Parse (strings.TrimSuffix (Src wildcardRule) wildcard)
                       = inr sourcePrefix
                    /\ Parse (Dest wildcardRule) = inr destPrefix
                    /\ HasPrefix candidatePath sourcePrefix = true
                    /\ Dest rule
                       = String (Join destPrefix
                                      (TrimPrefix candidatePath
                                                  sourcePrefix))).
Proof.
  intros Hmake.
  apply MakeArchive_resolution in Hmake
    as (r & filePaths & filePathRoot & m & Hreach & Hpop & _ & _).
  exists r, filePaths, filePathRoot, m. eexists.
  split; [exact Hreach |]. split; [reflexivity |].
  intros rule Hin.
  destruct (@populate_rules _ _ _ Hpop rule Hin)
    as [Hcopy | (wildcardRule & sourcePrefix & destPrefix & candidatePath
                 & H1 & H2 & H3 & H4 & H5 & H6 & ->)].
  - left. exact Hcopy.
  - right. exists candidatePath. split; [exact H5 |].
    split; [reflexivity |].
    exists wildcardRule, sourcePrefix, destPrefix.
    repeat split; assumption.
Qed.

End ArchiveResult.

(** ** Comparisons and sorting *)

Section Preorders.

Variable A : Type.
Variable cmp : A -> A -> comparison.
Hypothesis cmp_preorder : PreorderCmp cmp.

Lemma cmp_refl (a : A) : cmp a a = Eq.
Proof.
  destruct cmp_preorder as [Hanti _].
  pose proof (Hanti a a) as H. destruct (cmp a a); simpl in H;
    [reflexivity | discriminate | discriminate].
Qed.

Lemma cmp_Lt_Gt (a b : A) : cmp a b = Lt -> cmp b a = Gt.
Proof.
  destruct cmp_preorder as [Hanti _]. intros H.
  rewrite (Hanti b a), H. reflexivity.
Qed.

Lemma cmp_Eq_sym (a b : A) : cmp a b = Eq -> cmp b a = Eq.
Proof.
  destruct cmp_preorder as [Hanti _]. intros H.
  rewrite (Hanti b a), H. reflexivity.
Qed.

Lemma cmp_lt_le_trans (a b c : A) :
  cmp a b = Lt -> cmp b c <> Gt -> cmp a c = Lt.
Proof.
  destruct cmp_preorder as [Hanti Htrans]. intros Hab Hbc.
  assert (Hac : cmp a c <> Gt) by (apply (Htrans a b c); congruence).
  destruct (cmp a c) eqn:Heq; [| reflexivity | congruence].
  exfalso. apply (Htrans b c a Hbc).
  - rewrite (cmp_Eq_sym Heq). discriminate.
  - now apply cmp_Lt_Gt.
Qed.

Lemma cmp_le_lt_trans (a b c : A) :
  cmp a b <> Gt -> cmp b c = Lt -> cmp a c = Lt.
Proof.
  destruct cmp_preorder as [Hanti Htrans]. intros Hab Hbc.
  assert (Hac : cmp a c <> Gt) by (apply (Htrans a b c); congruence).
  destruct (cmp a c) eqn:Heq; [| reflexivity | congruence].
  exfalso. apply (Htrans c a b).
  - rewrite (cmp_Eq_sym Heq). discriminate.
  - exact Hab.
  - now apply cmp_Lt_Gt.
Qed.

Lemma cmp_eq_trans (a b c : A) :
  cmp a b = Eq -> cmp b c = Eq -> cmp a c = Eq.
Proof.
  destruct cmp_preorder as [Hanti Htrans]. intros Hab Hbc.
  assert (Hac : cmp a c <> Gt) by (apply (Htrans a b c); congruence).
  assert (Hca : cmp c a <> Gt).
  { apply (Htrans c b a).
    - rewrite (cmp_Eq_sym Hbc). discriminate.
    - rewrite (cmp_Eq_sym Hab). discriminate. }
  rewrite (Hanti c a) in Hca.
  destruct (cmp a c); simpl in Hca; congruence.
Qed.

(** One step of a lexicographic comparison is transitive when the
    comparison of the rest is. *)
Lemma lexc_trans (x y z : A) (xy yz xz : comparison) :
  (xy <> Gt -> yz <> Gt -> xz <> Gt) ->
  lexc (cmp x y) xy <> Gt -> lexc (cmp y z) yz <> Gt ->
  lexc (cmp x z) xz <> Gt.
Proof.
  intros Hrest Hxy Hyz.
  destruct (cmp x y) eqn:Exy; simpl in Hxy; [| | congruence];
    destruct (cmp y z) eqn:Eyz; simpl in Hyz; try congruence.
  - rewrite (cmp_eq_trans Exy Eyz). simpl. now apply Hrest.
  - rewrite (@cmp_le_lt_trans x y z) by congruence. discriminate.
  - rewrite (@cmp_lt_le_trans x y z) by congruence. discriminate.
  - rewrite (@cmp_lt_le_trans x y z) by congruence. discriminate.
Qed.

Lemma lexc_antisym (x y : A) (xy yx : comparison) :
  xy = CompOpp yx ->
  lexc (cmp x y) xy = CompOpp (lexc (cmp y x) yx).
Proof.
  destruct cmp_preorder as [Hanti _]. intros Hrest.
  rewrite (Hanti x y). destruct (cmp y x); simpl; [exact Hrest | | ];
    reflexivity.
Qed.

(** The strict part of a total preorder is a strict weak ordering. *)
Lemma lessOf_StrictWeakOrder : StrictWeakOrder (lessOf cmp).
Proof.
  destruct cmp_preorder as [Hanti Htrans]. unfold lessOf.
  split; [| split].
  - intros a. now rewrite cmp_refl.
  - intros a b c Hab Hbc.
    destruct (cmp a b) eqn:Eab; try discriminate.
    destruct (cmp b c) eqn:Ebc; try discriminate.
    rewrite (@cmp_lt_le_trans a b c) by congruence. reflexivity.
  - intros a b c Hab Hbc.
    assert (Hba : cmp b a <> Gt).
    { rewrite (Hanti b a). destruct (cmp a b); simpl; congruence. }
    assert (Hcb : cmp c b <> Gt).
    { rewrite (Hanti c b). destruct (cmp b c); simpl; congruence. }
    pose proof (Htrans c b a Hcb Hba) as Hca.
    rewrite (Hanti c a) in Hca.
    destruct (cmp a c); simpl in Hca; congruence.
Qed.

(** A preorder on the values of a function orders its arguments. *)
Lemma PreorderCmp_on (B : Type) (f : B -> A) :
  PreorderCmp (fun a b => cmp (f a) (f b)).
Proof.
  destruct cmp_preorder as [Hanti Htrans]. split.
  - intros a b. apply Hanti.
  - intros a b c. apply Htrans.
Qed.

End Preorders.

Lemma PreorderCmp_N : PreorderCmp N.compare.
Proof.
  split.
  - intros a b. apply N.compare_antisym.
  - intros a b c Hab Hbc.
    rewrite N.compare_le_iff in *. lia.
Qed.

Lemma PreorderCmp_ascii : PreorderCmp Ascii.compare.
Proof. exact (PreorderCmp_on PreorderCmp_N N_of_ascii). Qed.

Lemma string_compare_cons (x y : ascii) (a b : string) :
  String.compare (String x a) (String y b)
  = lexc (Ascii.compare x y) (String.compare a b).
Proof. reflexivity. Qed.

Lemma PreorderCmp_string : PreorderCmp String.compare.
Proof.
  split.
  - apply String.compare_antisym.
  - intros a. induction a as [| x a IH]; intros [| y b] [| z c];
      try (simpl; congruence).
    rewrite !string_compare_cons.
    apply (lexc_trans PreorderCmp_ascii). apply IH.
Qed.

(** Lexicographic combination of two comparisons. *)
Lemma PreorderCmp_lex (A : Type) (first rest : A -> A -> comparison) :
  PreorderCmp first -> PreorderCmp rest ->
  PreorderCmp (fun a b => lexc (first a b) (rest a b)).
Proof.
  intros Hfirst Hrest. split.
  - intros a b. apply (lexc_antisym Hfirst). apply (proj1 Hrest).
  - intros a b c. apply (lexc_trans Hfirst). apply (proj2 Hrest).
Qed.

(** *** Precedence of versions *)

Lemma PreorderCmp_PRCompare : PreorderCmp semver.PRCompare.
Proof.
  pose proof PreorderCmp_N as [HantiN HtransN].
  pose proof PreorderCmp_string as [HantiS HtransS].
  unfold semver.PRCompare. split.
  - intros a b.
    destruct (semver.IsNum a), (semver.IsNum b); simpl;
      [apply HantiN | reflexivity | reflexivity | apply HantiS].
  - intros a b c.
    destruct (semver.IsNum a), (semver.IsNum b), (semver.IsNum c); simpl;
      try congruence; [apply HtransN | apply HtransS].
Qed.

Lemma PreCompare_cons (x y : semver.PRVersion)
    (a b : list semver.PRVersion) :
  semver.PreCompare (x :: a) (y :: b)
  = lexc (semver.PRCompare x y) (semver.PreCompare a b).
Proof. reflexivity. Qed.

Lemma PreorderCmp_PreCompare : PreorderCmp semver.PreCompare.
Proof.
  split.
  - intros a. induction a as [| x a IH]; intros [| y b];
      try reflexivity.
    rewrite !PreCompare_cons.
    apply (lexc_antisym PreorderCmp_PRCompare x y). apply IH.
  - intros a. induction a as [| x a IH]; intros [| y b] [| z c];
      try (simpl; congruence).
    rewrite !PreCompare_cons.
    apply (lexc_trans PreorderCmp_PRCompare). apply IH.
Qed.

Lemma PreorderCmp_preCompare : PreorderCmp preCompare.
Proof.
  pose proof PreorderCmp_PreCompare as [Hanti Htrans].
  unfold preCompare. split.
  - intros a b.
    destruct (semver.Pre a) as [| x a'], (semver.Pre b) as [| y b'];
      try reflexivity.
    apply Hanti.
  - intros a b c.
    destruct (semver.Pre a) as [| x a'], (semver.Pre b) as [| y b'],
      (semver.Pre c) as [| z c']; try congruence.
    apply Htrans.
Qed.

Lemma Compare_lex (v o : semver.Version) :
  semver.Compare v o
  = lexc (N.compare (semver.Major v) (semver.Major o))
      (lexc (N.compare (semver.Minor v) (semver.Minor o))
         (lexc (N.compare (semver.Patch v) (semver.Patch o))
            (preCompare v o))).
Proof. reflexivity. Qed.

Lemma PreorderCmp_Compare : PreorderCmp semver.Compare.
Proof.
  pose proof (PreorderCmp_lex
                (PreorderCmp_on PreorderCmp_N semver.Major)
                (PreorderCmp_lex
                   (PreorderCmp_on PreorderCmp_N semver.Minor)
                   (PreorderCmp_lex
                      (PreorderCmp_on PreorderCmp_N semver.Patch)
                      PreorderCmp_preCompare))) as [Hanti Htrans].
  split.
  - intros a b. rewrite !Compare_lex. apply Hanti.
  - intros a b c. rewrite !Compare_lex. apply Htrans.
Qed.

Lemma LT_StrictWeakOrder : StrictWeakOrder semver.LT.
Proof. exact (lessOf_StrictWeakOrder PreorderCmp_Compare). Qed.

(** *** The order of the repository paths *)

Lemma lessRepoPath_StrictWeakOrder {P : path.API} {L : Lib} :
  StrictWeakOrder lessRepoPath.
Proof.
  exact (lessOf_StrictWeakOrder
           (PreorderCmp_on PreorderCmp_string
              (fun m => strings_ToLower (ToothRepoPath m)))).
Qed.

(** *** Sorting *)

Lemma StrictWeakOrder_asym (A : Type) (less : A -> A -> bool) (a b : A) :
  StrictWeakOrder less -> less a b = true -> less b a = false.
Proof.
  intros (Hirr & Htrans & _) Hab.
  destruct (less b a) eqn:Hba; [| reflexivity].
  rewrite <- (Hirr a). symmetry. now apply (Htrans a b a).
Qed.

Lemma insert_Permutation (A : Type) (less : A -> A -> bool) (x : A)
    (l : list A) :
  Permutation (Ref.insert less x l) (x :: l).
Proof.
  induction l as [| y l IH]; simpl.
  - apply Permutation_refl.
  - destruct (less y x).
    + apply perm_trans with (y :: x :: l).
      * now apply perm_skip.
      * apply perm_swap.
    + apply Permutation_refl.
Qed.

Lemma insert_StronglySorted (A : Type) (less : A -> A -> bool) (x : A)
    (l : list A) :
  StrictWeakOrder less ->
  StronglySorted (fun a b => less b a = false) l ->
  StronglySorted (fun a b => less b a = false) (Ref.insert less x l).
Proof.
  intros Hswo Hsorted.
  induction Hsorted as [| y l Hsorted IH Hall]; simpl.
  - constructor; constructor.
  - destruct (less y x) eqn:Hyx.
    + constructor; [exact IH |].
      apply (Permutation_Forall
               (Permutation_sym (insert_Permutation less x l))).
      constructor; [| exact Hall].
      now apply StrictWeakOrder_asym.
    + constructor; [now constructor |].
      constructor; [exact Hyx |].
      rewrite Forall_forall in *. intros z Hz.
      destruct Hswo as (_ & _ & Hneg).
      exact (Hneg z y x (Hall z Hz) Hyx).
Qed.

Lemma Ref_sort_contract : SortContract Ref.sort.
Proof.
  intros A less l. unfold Ref.sort. split.
  - induction l as [| x l IH]; simpl.
    + apply Permutation_refl.
    + apply perm_trans with (x :: fold_right (Ref.insert less) [] l).
      * apply insert_Permutation.
      * now apply perm_skip.
  - intros Hswo. induction l as [| x l IH]; simpl.
    + constructor.
    + now apply insert_StronglySorted.
Qed.

Lemma StronglySorted_app (A : Type) (R : A -> A -> Prop) (l1 l2 : list A) :
  StronglySorted R l1 -> StronglySorted R l2 ->
  (forall a b, In a l1 -> In b l2 -> R a b) ->
  StronglySorted R (l1 ++ l2).
Proof.
  intros H1 H2 Hcross. induction H1 as [| x l1 H1 IH Hall]; simpl.
  - exact H2.
  - constructor.
    + apply IH. intros a b Ha Hb. apply Hcross; [now right | exact Hb].
    + apply Forall_app. split; [exact Hall |].
      apply Forall_forall. intros b Hb. apply Hcross; [now left | exact Hb].
Qed.

Lemma StronglySorted_rev (A : Type) (R : A -> A -> Prop) (l : list A) :
  StronglySorted R l -> StronglySorted (fun a b => R b a) (rev l).
Proof.
  intros H. induction H as [| x l H IH Hall]; simpl.
  - constructor.
  - apply StronglySorted_app.
    + exact IH.
    + constructor; constructor.
    + intros a b Ha [<- | []]. rewrite Forall_forall in Hall.
      apply Hall. now apply in_rev.
Qed.

(** *** The reversal loop *)

Lemma store_app (pre rest : list semver.Version) (x v : semver.Version) :
  store (pre ++ x :: rest) (List.length pre) v = pre ++ v :: rest.
Proof.
  induction pre as [| y pre IH]; simpl; [reflexivity | now rewrite IH].
Qed.

Lemma nth_error_middle (pre rest : list semver.Version)
    (x : semver.Version) :
  nth_error (pre ++ x :: rest) (List.length pre) = Some x.
Proof.
  induction pre as [| y pre IH]; simpl; [reflexivity | exact IH].
Qed.

Lemma swap_ends (pre mid post : list semver.Version)
    (x y : semver.Version) :
  swap (pre ++ x :: mid ++ y :: post) (List.length pre)
       (List.length pre + S (List.length mid))
  = pre ++ y :: mid ++ x :: post.
Proof.
  unfold swap. rewrite nth_error_middle.
  replace (pre ++ x :: mid ++ y :: post)
    with ((pre ++ x :: mid) ++ y :: post)
    by (rewrite <- app_assoc; reflexivity).
  replace (List.length pre + S (List.length mid))
    with (List.length (pre ++ x :: mid))
    by (rewrite length_app; simpl; lia).
  rewrite nth_error_middle.
  rewrite <- app_assoc. simpl. rewrite store_app.
  replace (pre ++ y :: mid ++ y :: post)
    with ((pre ++ y :: mid) ++ y :: post)
    by (rewrite <- app_assoc; reflexivity).
  replace (List.length (pre ++ x :: mid))
    with (List.length (pre ++ y :: mid))
    by (rewrite !length_app; reflexivity).
  rewrite store_app, <- app_assoc. reflexivity.
Qed.

Lemma reverseLoop_middle (steps : nat) :
  forall pre mid post : list semver.Version,
    List.length mid <= 2 * steps ->
    reverseLoop steps (pre ++ mid ++ post) (List.length pre)
                (List.length pre + List.length mid - 1)
    = pre ++ rev mid ++ post.
Proof.
  induction steps as [| steps IH]; intros pre mid post Hlen.
  - destruct mid; [reflexivity | simpl in Hlen; lia].
  - simpl. destruct mid as [| x mid].
    + simpl. replace (List.length pre + 0 - 1) with (List.length pre - 1)
        by lia.
      destruct (Nat.ltb_spec (List.length pre) (List.length pre - 1));
        [lia | reflexivity].
    + destruct (exists_last (l := x :: mid)) as (mid' & y & Hmid);
        [discriminate |].
      destruct mid' as [| x' mid'].
      * simpl in Hmid. injection Hmid as Hx Hnil.
        destruct mid; [| discriminate]. simpl.
        replace (List.length pre + 1 - 1) with (List.length pre) by lia.
        rewrite Nat.ltb_irrefl. reflexivity.
      * simpl in Hmid. injection Hmid as Hx Hmid. subst x' mid.
        assert (Hlt : List.length pre
                      < List.length pre
                        + List.length (x :: mid' ++ [y]) - 1).
        { simpl. rewrite length_app. simpl. lia. }
        apply Nat.ltb_lt in Hlt. rewrite Hlt.
        replace (List.length pre + List.length (x :: mid' ++ [y]) - 1)
          with (List.length pre + S (List.length mid'))
          by (simpl; rewrite length_app; simpl; lia).
        replace (pre ++ (x :: mid' ++ [y]) ++ post)
          with (pre ++ x :: mid' ++ y :: post)
          by (simpl; rewrite <- app_assoc; reflexivity).
        rewrite swap_ends.
        replace (pre ++ y :: mid' ++ x :: post)
          with ((pre ++ [y]) ++ mid' ++ (x :: post))
          by (rewrite <- app_assoc; reflexivity).
        replace (List.length pre + 1) with (List.length (pre ++ [y]))
          by (rewrite length_app; reflexivity).
        replace (List.length pre + S (List.length mid') - 1)
          with (List.length (pre ++ [y]) + List.length mid' - 1)
          by (rewrite length_app; simpl; lia).
        rewrite IH.
        -- simpl. rewrite rev_app_distr. simpl.
           rewrite <- !app_assoc. reflexivity.
        -- simpl in Hlen. rewrite length_app in Hlen. simpl in Hlen. lia.
Qed.

(** Lines 138-140 reverse the list. *)
Lemma reverseLoop_rev (versionList : list semver.Version) :
  reverseLoop (List.length versionList) versionList
              0 (List.length versionList - 1)
  = rev versionList.
Proof.
  pose proof (@reverseLoop_middle (List.length versionList)
                [] versionList []) as H.
  simpl in H. rewrite !app_nil_r in H. apply H. lia.
Qed.

(** ** The version index *)

Lemma tokens_short (segs : list string) :
  forallb (fun seg => negb (bufio.tooLong seg)) segs = true ->
  bufio.tokens segs
  = map bufio.dropCR (if last segs "" =? "" then removelast segs else segs).
Proof.
  induction segs as [| seg rest IH]; intros Hshort; [reflexivity |].
  simpl in Hshort. apply andb_true_iff in Hshort as [Hseg Hrest].
  apply negb_true_iff in Hseg.
  destruct rest as [| seg' rest].
  - simpl. rewrite Hseg. destruct (seg =? ""); reflexivity.
  - specialize (IH Hrest).
    change (bufio.tokens (seg :: seg' :: rest))
      with (if bufio.tooLong seg then []
            else bufio.dropCR seg :: bufio.tokens (seg' :: rest)).
    rewrite Hseg, IH.
    change (last (seg :: seg' :: rest) "") with (last (seg' :: rest) "").
    change (removelast (seg :: seg' :: rest))
      with (seg :: removelast (seg' :: rest)).
    destruct (last (seg' :: rest) "" =? ""); reflexivity.
Qed.

(** When no line of the body reaches [bufio.MaxScanTokenSize], the
    scanner yields the lines of the body. *)
Lemma Scan_short (content : string) :
  forallb (fun seg => negb (bufio.tooLong seg)) (bufio.segments content)
  = true ->
  bufio.Scan content = bodyLines content.
Proof. intros Hshort. now apply tokens_short. Qed.

Section Versions.

Context {P : path.API} {L : Lib}.
Import path.

Lemma versionLoop_spec (lines : list string)
    (versionList : list semver.Version) :
  versionLoop lines versionList = versionList ++ parsedVersions lines.
Proof.
  revert versionList.
  induction lines as [| line rest IH]; intros versionList; simpl.
  - now rewrite app_nil_r.
  - unfold lineVersion.
    destruct (semver_Parse _) as [e | v].
    + apply IH.
    + rewrite IH, <- app_assoc. reflexivity.
Qed.

(** What [GetAvailableVersions] returns for a fetched body: the versions
    of the lines the scanner yields, by descending precedence. *)
Lemma GetAvailableVersions_fetched (w : World) (ctx : Context)
    (toothRepoPath : string) (proxy versionURL : URL) (content : string) :
  module_CheckPath toothRepoPath = None ->
  GoModuleProxyURL ctx = inr proxy ->
  network_GenerateGoModuleVersionListURL toothRepoPath proxy
  = inr versionURL ->
  network_GetContent w versionURL = inr content ->
  GetAvailableVersions w ctx toothRepoPath
  = Ok (rev (semver_Sort (parsedVersions (bufio.Scan content)))).
Proof.
  intros Hcheck Hproxy Hurl Hcontent. unfold GetAvailableVersions.
  rewrite Hcheck, Hproxy. simpl. rewrite Hurl. simpl.
  rewrite Hcontent. simpl.
  rewrite reverseLoop_rev, versionLoop_spec. reflexivity.
Qed.

Lemma sorted_versions_descending (versions : list semver.Version) :
  SortContract (@sort_Sort P L) ->
  Permutation (rev (semver_Sort versions)) versions
  /\ descending (rev (semver_Sort versions)).
Proof.
  intros Hsort. unfold semver_Sort.
  destruct (Hsort _ semver.LT versions) as [Hperm Hsorted]. split.
  - apply perm_trans with (sort_Sort semver.LT versions).
    + apply Permutation_sym, Permutation_rev.
    + exact Hperm.
  - unfold descending.
    apply (StronglySorted_rev (Hsorted LT_StrictWeakOrder)).
Qed.

(** For a body without an overlong line: the versions of the lines that
    parse, all of them, by descending precedence. *)
Theorem GetAvailableVersions_short_lines (w : World) (ctx : Context)
    (toothRepoPath : string) (proxy versionURL : URL) (content : string) :
  SortContract (@sort_Sort P L) ->
  module_CheckPath toothRepoPath = None ->
  GoModuleProxyURL ctx = inr proxy ->
  network_GenerateGoModuleVersionListURL toothRepoPath proxy
  = inr versionURL ->
  network_GetContent w versionURL = inr content ->
  forallb (fun seg => negb (bufio.tooLong seg)) (bufio.segments content)
  = true ->
  exists versionList,
    GetAvailableVersions w ctx toothRepoPath = Ok versionList
    /\ Permutation versionList (parsedVersions (bodyLines content))
    /\ descending versionList.
Proof.
  intros Hsort Hcheck Hproxy Hurl Hcontent Hshort.
  rewrite (GetAvailableVersions_fetched w ctx toothRepoPath
             Hcheck Hproxy Hurl Hcontent).
  rewrite (Scan_short content Hshort).
  eexists. split; [reflexivity |].
  now apply sorted_versions_descending.
Qed.

Lemma stableLoop_first (before after : list semver.Version)
    (v : semver.Version) :
  (forall u, In u before -> semver.Pre u <> []) ->
  semver.Pre v = [] ->
  stableLoop (before ++ v :: after) = Ok v.
Proof.
  intros Hbefore Hv. induction before as [| u before IH]; simpl.
  - now rewrite Hv.
  - destruct (semver.Pre u) eqn:Hu.
    + exfalso. apply (Hbefore u); [now left | exact Hu].
    + simpl. apply IH. intros u' Hu'. apply Hbefore. now right.
Qed.

Lemma stableLoop_none (versionList : list semver.Version) :
  stableLoop versionList = Err NoStableVersion
  <-> forall v, In v versionList -> semver.Pre v <> [].
Proof.
  induction versionList as [| u rest IH]; simpl.
  - split; [intros _ v [] | reflexivity].
  - destruct (semver.Pre u) eqn:Hu; simpl.
    + split; [discriminate |].
      intros H. exfalso. apply (H u); [now left | exact Hu].
    + rewrite IH. split.
      * intros H v [<- | Hv]; [congruence | now apply H].
      * intros H v Hv. apply H. now right.
Qed.

(** C7. [GetLatestStableVersion] returns the first version of the list
    of [GetAvailableVersions] that has no pre-release part, and fails
    with [NoStableVersion] exactly when the list has no such version,
    the empty list included. *)
Theorem GetLatestStableVersion_spec (w : World) (ctx : Context)
    (toothRepoPath : string) :
  (forall before v after,
     GetAvailableVersions w ctx toothRepoPath = inr (before ++ v :: after) ->
     (forall u, In u before -> semver.Pre u <> []) ->
     semver.Pre v = [] ->
     GetLatestStableVersion w ctx toothRepoPath = Ok v)
  /\ (GetLatestStableVersion w ctx toothRepoPath = Err NoStableVersion
      <-> exists versionList,
            GetAvailableVersions w ctx toothRepoPath = inr versionList
            /\ forall v, In v versionList -> semver.Pre v <> [])
  /\ (GetAvailableVersions w ctx toothRepoPath = inr [] ->
      GetLatestStableVersion w ctx toothRepoPath = Err NoStableVersion).
Proof.
  unfold GetLatestStableVersion. split; [| split].
  - intros before v after Hlist Hbefore Hv. rewrite Hlist. simpl.
    now apply stableLoop_first.
  - destruct (GetAvailableVersions w ctx toothRepoPath)
      as [e | versionList]; simpl.
    + split; [discriminate |]. intros (l & Hl & _). discriminate.
    + rewrite stableLoop_none. split.
      * intros H. exists versionList. split; [reflexivity | exact H].
      * intros (l & Hl & H). injection Hl as <-. exact H.
  - intros Hlist. rewrite Hlist. reflexivity.
Qed.

End Versions.

(** ** The installed packages *)

Section Registry.

Context {P : path.API} {L : Lib}.
Import path.

Lemma readLoop_step (w : World) (filePath : string) (rest : list string)
    (metadataList : list Metadata) :
  readLoop w (filePath :: rest) metadataList
  = (m <- loadMetadataFile w filePath ;;
     readLoop w rest (metadataList ++ [m])).
Proof.
  simpl. unfold loadMetadataFile.
  destruct (os_ReadFile w filePath) as [e | jsonBytes]; simpl;
    [reflexivity |].
  destruct (MakeMetadata jsonBytes); reflexivity.
Qed.

Lemma readLoop_ok (w : World) (filePaths : list string)
    (metadataList : list Metadata) :
  allLoad w filePaths = true ->
  exists parsed,
    Forall2 (fun filePath m => loadMetadataFile w filePath = inr m)
            filePaths parsed
    /\ readLoop w filePaths metadataList = Ok (metadataList ++ parsed).
Proof.
  revert metadataList.
  induction filePaths as [| filePath rest IH]; intros metadataList Hall.
  - exists []. split; [constructor |]. simpl. now rewrite app_nil_r.
  - simpl in Hall. apply andb_true_iff in Hall as [Hfile Hrest].
    apply isOk_inr in Hfile as [m Hm].
    destruct (IH (metadataList ++ [m]) Hrest) as (parsed & Hparsed & Hloop).
    exists (m :: parsed). split; [now constructor |].
    rewrite readLoop_step, Hm. simpl. rewrite Hloop, <- app_assoc.
    reflexivity.
Qed.

(** The first file that does not load stops the listing with its
    error. *)
Lemma readLoop_err (w : World) (before after : list string)
    (filePath : string) (e : error) (metadataList : list Metadata) :
  allLoad w before = true ->
  loadMetadataFile w filePath = inl e ->
  readLoop w (before ++ filePath :: after) metadataList = inl e.
Proof.
  revert metadataList.
  induction before as [| f before IH]; intros metadataList Hall Hfile.
  - simpl app. rewrite readLoop_step, Hfile. reflexivity.
  - simpl in Hall. apply andb_true_iff in Hall as [Hf Hrest].
    apply isOk_inr in Hf as [m Hm].
    simpl app. rewrite readLoop_step, Hm. simpl. now apply IH.
Qed.

(** A store with a file that does not load has a first such file. *)
Lemma first_broken (w : World) (filePaths : list string)
    (filePath : string) :
  In filePath filePaths ->
  isOk (loadMetadataFile w filePath) = false ->
  exists before broken after e,
    filePaths = before ++ broken :: after
    /\ allLoad w before = true
    /\ loadMetadataFile w broken = inl e.
Proof.
  intros Hin Hbroken.
  induction filePaths as [| f rest IH]; [contradiction |].
  destruct (loadMetadataFile w f) as [e | m] eqn:Hf.
  - exists [], f, rest, e. auto.
  - destruct Hin as [-> | Hin].
    + rewrite Hf in Hbroken. discriminate.
    + destruct (IH Hin) as (before & broken & after & e & -> & Hb & He).
      exists (f :: before), broken, after, e.
      repeat split; try assumption.
      unfold allLoad in *. simpl. now rewrite Hf, Hb.
Qed.

Lemma GetAllMetadata_listed (w : World) (ctx : Context) (metadataDir : Path)
    (filePaths : list string) :
  MetadataDir ctx = inr metadataDir ->
  filepath_Glob w (filepath_Join (LocalString metadataDir) "*.json")
  = inr filePaths ->
  GetAllMetadata w ctx
  = (metadataList <- readLoop w filePaths [] ;;
     Ok (sort_Slice lessRepoPath metadataList)).
Proof.
  intros Hdir Hglob. unfold GetAllMetadata.
  rewrite Hdir. simpl. rewrite Hglob. reflexivity.
Qed.

(** [a] is not strictly above [b] in the order of byte strings. *)
Lemma ltb_false_leb (s t : string) :
  String.ltb s t = false -> String.leb t s = true.
Proof.
  unfold String.ltb, String.leb. rewrite (String.compare_antisym t s).
  destruct (String.compare s t); simpl; congruence.
Qed.

Lemma StronglySorted_weaken (A : Type) (R R' : A -> A -> Prop)
    (l : list A) :
  (forall a b, In a l -> In b l -> R a b -> R' a b) ->
  StronglySorted R l -> StronglySorted R' l.
Proof.
  intros Himpl Hsorted.
  induction Hsorted as [| x l Hsorted IH Hall]; constructor.
  - apply IH. intros a b Ha Hb. apply Himpl; now right.
  - rewrite Forall_forall in *. intros b Hb.
    apply Himpl; [now left | now right | now apply Hall].
Qed.

(** What the comparison of lines 67-70 makes of a sorted slice. *)
Lemma sorted_by_lowered_path (metadataList : list Metadata) :
  StronglySorted (fun a b => lessRepoPath b a = false) metadataList ->
  ascendingCaseInsensitive strings_ToLower metadataList.
Proof.
  apply StronglySorted_weaken. intros a b _ _ Hless.
  now apply ltb_false_leb.
Qed.

(** C8. [GetAllMetadata] reads and parses every manifest file of the
    store; the first file that cannot be read or parsed makes the whole
    listing fail with the error of that file, and when all files load
    the result has the parsed manifests, all of them, in ascending
    case-insensitive order of [ToothRepoPath]: each path, lowered by
    [strings.ToLower], is at most the lowered path of every manifest
    behind it; where [strings.ToLower] folds the capitals of ASCII and
    nothing else on the paths of the store, that is the byte order of
    the paths with their capitals folded. *)
Theorem GetAllMetadata_spec (w : World) (ctx : Context) (metadataDir : Path)
    (filePaths : list string) :
  SortContract (@sort_Slice P L) ->
  MetadataDir ctx = inr metadataDir ->
  filepath_Glob w (filepath_Join (LocalString metadataDir) "*.json")
  = inr filePaths ->
  (allLoad w filePaths = true ->
   exists parsed metadataList,
     Forall2 (fun filePath m => loadMetadataFile w filePath = inr m)
             filePaths parsed
     /\ GetAllMetadata w ctx = Ok metadataList
     /\ Permutation metadataList parsed
     /\ ascendingCaseInsensitive strings_ToLower metadataList
     /\ ((forall m, In m parsed ->
            strings_ToLower (ToothRepoPath m)
            = foldCase (ToothRepoPath m)) ->
         ascendingCaseInsensitive foldCase metadataList))
  /\ (forall before filePath after e,
        filePaths = before ++ filePath :: after ->
        allLoad w before = true ->
        loadMetadataFile w filePath = inl e ->
        GetAllMetadata w ctx = Err e).
Proof.
  intros Hsort Hdir Hglob.
  rewrite (GetAllMetadata_listed w ctx Hdir Hglob). split.
  - intros Hall.
    destruct (readLoop_ok w filePaths [] Hall) as (parsed & Hparsed & Hloop).
    rewrite Hloop. simpl.
    destruct (Hsort _ lessRepoPath parsed) as [Hperm Hsorted].
    specialize (Hsorted lessRepoPath_StrictWeakOrder).
    apply sorted_by_lowered_path in Hsorted.
    exists parsed, (sort_Slice lessRepoPath parsed).
    repeat split; try assumption.
    intros Hfold. revert Hsorted. apply StronglySorted_weaken.
    intros a b Ha Hb Hle.
    rewrite <- (Hfold a), <- (Hfold b);
      [exact Hle | exact (Permutation_in _ Hperm Hb)
       | exact (Permutation_in _ Hperm Ha)].
  - intros before filePath after e -> Hbefore Hfile.
    now rewrite (readLoop_err w before after filePath [] Hbefore Hfile).
Qed.

Lemma installedLoop_true (metadataList : list Metadata)
    (toothRepoPath : string) :
  installedLoop metadataList toothRepoPath = true
  <-> exists m, In m metadataList /\ ToothRepoPath m = toothRepoPath.
Proof.
  induction metadataList as [| m rest IH]; simpl.
  - split; [discriminate | intros (m & [] & _)].
  - destruct (String.eqb_spec (ToothRepoPath m) toothRepoPath) as [Heq | Hne].
    + split; [| reflexivity]. intros _. exists m. auto.
    + rewrite IH. split.
      * intros (m' & Hin & Hm'). exists m'. auto.
      * intros (m' & [<- | Hin] & Hm'); [contradiction |].
        exists m'. auto.
Qed.

Lemma metadataLoop_found (metadataList : list Metadata)
    (toothRepoPath : string) :
  (exists m, In m metadataList /\ ToothRepoPath m = toothRepoPath) ->
  exists m, metadataLoop metadataList toothRepoPath = Ok m
            /\ In m metadataList /\ ToothRepoPath m = toothRepoPath.
Proof.
  induction metadataList as [| m rest IH]; simpl.
  - intros (m & [] & _).
  - intros (m' & Hin & Hm').
    destruct (String.eqb_spec (ToothRepoPath m) toothRepoPath) as [Heq | Hne].
    + exists m. auto.
    + destruct Hin as [<- | Hin]; [contradiction |].
      destruct IH as (found & Hfound & Hin' & Heq); [now exists m' |].
      exists found. auto.
Qed.

Lemma metadataLoop_missing (metadataList : list Metadata)
    (toothRepoPath : string) :
  (forall m, In m metadataList -> ToothRepoPath m <> toothRepoPath) ->
  metadataLoop metadataList toothRepoPath = Err (NotFound toothRepoPath).
Proof.
  induction metadataList as [| m rest IH]; simpl; intros Hnone.
  - reflexivity.
  - destruct (String.eqb_spec (ToothRepoPath m) toothRepoPath) as [Heq | Hne].
    + exfalso. apply (Hnone m); auto.
    + apply IH. intros m' Hin. apply Hnone. auto.
Qed.

(** C9. [IsInstalled] returns true if and only if a manifest of the
    listing has exactly the queried [ToothRepoPath]; [GetMetadata]
    returns a manifest of the listing with that path when there is one
    and fails with [NotFound] when there is none. *)
Theorem IsInstalled_GetMetadata_spec (w : World) (ctx : Context)
    (toothRepoPath : string) :
  (IsInstalled w ctx toothRepoPath = Ok true
   <-> exists metadataList,
         GetAllMetadata w ctx = inr metadataList
         /\ exists m, In m metadataList
                      /\ ToothRepoPath m = toothRepoPath)
  /\ (forall metadataList,
        GetAllMetadata w ctx = inr metadataList ->
        (forall m, In m metadataList -> ToothRepoPath m <> toothRepoPath) ->
        IsInstalled w ctx toothRepoPath = Ok false
        /\ GetMetadata w ctx toothRepoPath = Err (NotFound toothRepoPath))
  /\ (forall metadataList,
        GetAllMetadata w ctx = inr metadataList ->
        (exists m, In m metadataList /\ ToothRepoPath m = toothRepoPath) ->
        exists m, GetMetadata w ctx toothRepoPath = Ok m
                  /\ In m metadataList
                  /\ ToothRepoPath m = toothRepoPath).
Proof.
  unfold IsInstalled, GetMetadata. split; [| split].
  - destruct (GetAllMetadata w ctx) as [e | metadataList]; simpl.
    + split; [discriminate |]. intros (l & Hl & _). discriminate.
    + split.
      * intros H. injection H as H. exists metadataList.
        split; [reflexivity |]. now apply installedLoop_true.
      * intros (l & Hl & H). injection Hl as <-.
        apply installedLoop_true in H. unfold Ok. now rewrite H.
  - intros metadataList Hlist Hnone. rewrite Hlist. simpl. split.
    + destruct (installedLoop metadataList toothRepoPath) eqn:Hloop;
        [| reflexivity].
      apply installedLoop_true in Hloop as (m & Hin & Hm).
      exfalso. exact (Hnone m Hin Hm).
    + now apply metadataLoop_missing.
  - intros metadataList Hlist Hsome. rewrite Hlist. simpl.
    now apply metadataLoop_found.
Qed.

(** C10. When a manifest file of the store cannot be read or parsed,
    [IsInstalled] and [GetMetadata] fail for every queried path, with
    the error of the listing. *)
Theorem broken_store_fails (w : World) (ctx : Context) (metadataDir : Path)
    (filePaths : list string) (broken : string) :
  MetadataDir ctx = inr metadataDir ->
  filepath_Glob w (filepath_Join (LocalString metadataDir) "*.json")
  = inr filePaths ->
  In broken filePaths ->
  isOk (loadMetadataFile w broken) = false ->
  exists e,
    GetAllMetadata w ctx = Err e
    /\ forall toothRepoPath,
         IsInstalled w ctx toothRepoPath
         = Err (Wrap "failed to list all installed tooth metadata" e)
         /\ GetMetadata w ctx toothRepoPath
            = Err (Wrap "failed to list all installed tooth metadata" e).
Proof.
  intros Hdir Hglob Hin Hbroken.
  destruct (first_broken w filePaths broken Hin Hbroken)
    as (before & first & after & e & -> & Hbefore & Hfirst).
  exists e.
  assert (Hlist : GetAllMetadata w ctx = Err e).
  { rewrite (GetAllMetadata_listed w ctx Hdir Hglob).
    now rewrite (readLoop_err w before after first [] Hbefore Hfirst). }
  split; [exact Hlist |].
  intros toothRepoPath. unfold IsInstalled, GetMetadata.
  rewrite Hlist. split; reflexivity.
Qed.

End Registry.

(** ** The reference [ToLower] *)

Lemma Ref_lowerByte_foldByte (c : ascii) : Ref.lowerByte c = foldByte c.
Proof. destruct c as [[] [] [] [] [] [] [] []]; reflexivity. Qed.

(** On every text the reference [ToLower] folds the capitals of ASCII
    and nothing else. *)
Lemma Ref_ToLower_foldCase (s : string) : Ref.ToLower s = foldCase s.
Proof.
  induction s as [| c s IH]; simpl; [reflexivity |].
  now rewrite IH, Ref_lowerByte_foldByte.
Qed.

(** ** The reference paths *)

Lemma Ref_HasPrefix_nil (p : Ref.Path) : Ref.HasPrefix p [] = true.
Proof. destruct p; reflexivity. Qed.

Lemma Ref_HasPrefix_refl (p : Ref.Path) : Ref.HasPrefix p p = true.
Proof.
  induction p as [| x p IH]; simpl; [reflexivity |].
  now rewrite String.eqb_refl, IH.
Qed.

Lemma Ref_HasPrefix_trans (p q r : Ref.Path) :
  Ref.HasPrefix p q = true -> Ref.HasPrefix q r = true ->
  Ref.HasPrefix p r = true.
Proof.
  revert p q. induction r as [| z r IH]; intros p q Hpq Hqr;
    [apply Ref_HasPrefix_nil |].
  destruct q as [| y q]; [discriminate |].
  destruct p as [| x p]; [discriminate |].
  simpl in *.
  apply andb_true_iff in Hpq as [Hyx Hpq].
  apply andb_true_iff in Hqr as [Hzy Hqr].
  apply String.eqb_eq in Hyx, Hzy. subst.
  rewrite String.eqb_refl. simpl. now apply (IH p q).
Qed.

Lemma Ref_commonPrefix_l (a b : Ref.Path) :
  Ref.HasPrefix a (Ref.commonPrefix a b) = true.
Proof.
  revert b. induction a as [| x a IH]; intros [| y b]; simpl;
    try reflexivity.
  destruct (String.eqb_spec x y); simpl; [| reflexivity].
  now rewrite String.eqb_refl, IH.
Qed.

Lemma Ref_commonPrefix_r (a b : Ref.Path) :
  Ref.HasPrefix b (Ref.commonPrefix a b) = true.
Proof.
  revert b. induction a as [| x a IH]; intros [| y b]; simpl;
    try reflexivity.
  destruct (String.eqb_spec x y) as [-> |]; simpl; [| reflexivity].
  now rewrite String.eqb_refl, IH.
Qed.

Lemma Ref_commonPrefix_greatest (a b q : Ref.Path) :
  Ref.HasPrefix a q = true -> Ref.HasPrefix b q = true ->
  Ref.HasPrefix (Ref.commonPrefix a b) q = true.
Proof.
  revert a b. induction q as [| z q IH]; intros a b Ha Hb;
    [apply Ref_HasPrefix_nil |].
  destruct a as [| x a]; [discriminate |].
  destruct b as [| y b]; [discriminate |].
  simpl in *.
  apply andb_true_iff in Ha as [Hzx Ha].
  apply andb_true_iff in Hb as [Hzy Hb].
  apply String.eqb_eq in Hzx, Hzy. subst.
  rewrite String.eqb_refl. simpl. rewrite String.eqb_refl. simpl.
  now apply IH.
Qed.

Lemma Ref_fold_commonPrefix (rest : list Ref.Path) (first : Ref.Path) :
  Ref.HasPrefix first (fold_left Ref.commonPrefix rest first) = true
  /\ (forall p, In p rest ->
        Ref.HasPrefix p (fold_left Ref.commonPrefix rest first) = true)
  /\ (forall q, Ref.HasPrefix first q = true ->
        (forall p, In p rest -> Ref.HasPrefix p q = true) ->
        Ref.HasPrefix (fold_left Ref.commonPrefix rest first) q = true).
Proof.
  revert first. induction rest as [| x rest IH]; intros first; simpl.
  - split; [apply Ref_HasPrefix_refl |].
    split; [intros p [] | auto].
  - destruct (IH (Ref.commonPrefix first x)) as (Hfirst & Hrest & Hmax).
    split; [| split].
    + apply Ref_HasPrefix_trans with (Ref.commonPrefix first x);
        [apply Ref_commonPrefix_l | exact Hfirst].
    + intros p [<- | Hp]; [| now apply Hrest].
      apply Ref_HasPrefix_trans with (Ref.commonPrefix first x);
        [apply Ref_commonPrefix_r | exact Hfirst].
    + intros q Hq Hall. apply Hmax.
      * apply Ref_commonPrefix_greatest; [exact Hq |]. apply Hall. now left.
      * intros p Hp. apply Hall. now right.
Qed.

(** The reference [ExtractLongestCommonPath] returns a common prefix of
    the paths, and the longest one. *)
Lemma Ref_ExtractLongestCommonPath_spec (paths : list Ref.Path) :
  (forall p, In p paths ->
     Ref.HasPrefix p (Ref.ExtractLongestCommonPath paths) = true)
  /\ (forall q, paths <> [] ->
        (forall p, In p paths -> Ref.HasPrefix p q = true) ->
        Ref.HasPrefix (Ref.ExtractLongestCommonPath paths) q = true).
Proof.
  destruct paths as [| first rest]; simpl.
  - split; [intros p [] | intros q Hne; contradiction].
  - destruct (Ref_fold_commonPrefix rest first) as (Hfirst & Hrest & Hmax).
    split.
    + intros p [<- | Hp]; [exact Hfirst | now apply Hrest].
    + intros q _ Hall. apply Hmax.
      * apply Hall. now left.
      * intros p Hp. apply Hall. now right.
Qed.

Lemma Ref_ExtractLongestCommonPath_single (p : Ref.Path) :
  Ref.ExtractLongestCommonPath [p] = p.
Proof. reflexivity. Qed.

(** * The theorems at work on the small world *)

Section Examples.

Import Demo.
#[local] Existing Instance Ref.paths.
#[local] Existing Instance Demo.lib.

(** The spec's example of a wildcard rule. *)
Lemma populateMetadataFilePlaceWildcards_spec_witness :
  forallb (@wellFormedRule Ref.paths) (Place (Files (Raw wildcardManifest)))
  = true
  /\ @populateMetadataFilePlaceWildcards Ref.paths wildcardManifest candidates
     = Ok (manifest "example.com/pkg" ""
                    [rule "assets/a.png" "out/a.png";
                     rule "assets/sub/b.png" "out/sub/b.png"]).
Proof.
  split; [reflexivity |].
  exact (proj1 (@populateMetadataFilePlaceWildcards_spec Ref.paths
                  wildcardManifest candidates) eq_refl).
Defined.

(** An archive whose only entry is [tooth.json]: the root is the empty
    path and the manifest is found. *)
Lemma MakeArchive_root_witness :
  (forall p : Ref.Path, Ref.ExtractLongestCommonPath [p] = p)
  /\ gozip_OpenReader goodWorld (Ref.String ["single.zip"]) = inr singleZip
  /\ @zip_GetFilePaths Ref.paths lib singleZip = inr [["tooth.json"]]
  /\ @inferRoot Ref.paths [["tooth.json"]] = Ok []
  /\ MakeArchive goodWorld ["single.zip"] [] = Ok singleArchive.
Proof.
  split; [exact Ref_ExtractLongestCommonPath_single |].
  do 3 (split; [reflexivity |]).
  destruct (@MakeArchive_root Ref.paths lib goodWorld ["single.zip"] []
              singleZip [["tooth.json"]]
              Ref_ExtractLongestCommonPath_single eq_refl eq_refl)
    as [_ Hone].
  destruct (Hone ["tooth.json"] eq_refl) as [_ Hmake].
  exact Hmake.
Defined.

(** Both branches at work. [pkgZip] carries its files: the rule
    [assets/*] is held against the entries below the root [pkgs/A].
    [nestedZip] comes with an external asset archive: the rule [bin/*]
    is held against the entries as they are, [pkgs/B/bin/tool] among
    them, and matches none, where below the root it would match
    [bin/tool]. *)
Lemma MakeArchive_branches_witness :
  (reachesManifest goodWorld ["pkg.zip"] pkgZip pkgPaths ["pkgs"; "A"]
                   selfManifest
   /\ Ref.IsEmpty [] = true
   /\ AssetURL selfManifest = ""
   /\ MakeArchive goodWorld ["pkg.zip"] [] = Ok pkgArchive)
  /\ (reachesManifest nestedWorld ["nested.zip"] nestedZip nestedPaths
                      ["pkgs"; "B"] extManifest
      /\ Ref.IsEmpty ["assets.zip"] = false
      /\ AssetURL extManifest <> ""
      /\ MakeArchive nestedWorld ["nested.zip"] ["assets.zip"]
         = Ok nestedArchive
      /\ @populateMetadataFilePlaceWildcards Ref.paths extManifest
           (map (fun filePath => Ref.TrimPrefix filePath ["pkgs"; "B"])
                nestedPaths)
         = Ok (manifest "example.com/ext"
                        "https://example.com/ext-assets.zip"
                        [rule "bin/tool" "tools/tool"]))
  /\ exists r filePaths filePathRoot m,
       reachesManifest nestedWorld ["nested.zip"] r filePaths
                       filePathRoot m
       /\ (Ref.IsEmpty ["assets.zip"] = true ->
             @populateMetadataFilePlaceWildcards Ref.paths m
               (map (fun filePath => Ref.TrimPrefix filePath filePathRoot)
                    filePaths)
             = inr (metadata nestedArchive)
             /\ AssetArchiveFilePath nestedArchive = ["nested.zip"]
             /\ AssetArchiveFilePathRoot nestedArchive = filePathRoot)
       /\ (Ref.IsEmpty ["assets.zip"] = false ->
             @populateMetadataFilePlaceWildcards Ref.paths m filePaths
             = inr (metadata nestedArchive)
             /\ AssetArchiveFilePath nestedArchive = ["assets.zip"]
             /\ AssetArchiveFilePathRoot nestedArchive = []).
Proof.
  assert (Hpkg : reachesManifest goodWorld ["pkg.zip"] pkgZip pkgPaths
                                 ["pkgs"; "A"] selfManifest)
    by (repeat split; reflexivity).
  assert (Hnested : reachesManifest nestedWorld ["nested.zip"] nestedZip
                                    nestedPaths ["pkgs"; "B"] extManifest)
    by (repeat split; reflexivity).
  assert (Hurl : AssetURL extManifest <> "") by discriminate.
  split; [| split].
  - split; [exact Hpkg |]. do 2 (split; [reflexivity |]).
    exact (proj1 (proj1 (@MakeArchive_branches Ref.paths lib goodWorld
                           ["pkg.zip"] [])
                    pkgZip pkgPaths ["pkgs"; "A"] selfManifest Hpkg)
             eq_refl eq_refl).
  - split; [exact Hnested |]. split; [reflexivity |].
    split; [exact Hurl |]. split; [| reflexivity].
    exact (proj2 (proj1 (@MakeArchive_branches Ref.paths lib nestedWorld
                           ["nested.zip"] ["assets.zip"])
                    nestedZip nestedPaths ["pkgs"; "B"] extManifest
                    Hnested)
             eq_refl Hurl).
  - apply (proj2 (@MakeArchive_branches Ref.paths lib nestedWorld
                    ["nested.zip"] ["assets.zip"]) nestedArchive).
    exact (proj2 (proj1 (@MakeArchive_branches Ref.paths lib nestedWorld
                           ["nested.zip"] ["assets.zip"])
                    nestedZip nestedPaths ["pkgs"; "B"] extManifest
                    Hnested)
             eq_refl Hurl).
Defined.

Lemma MakeArchive_rules_witness :
  MakeArchive goodWorld ["pkg.zip"] [] = inr pkgArchive
  /\ exists r filePaths filePathRoot m candidatePaths,
       reachesManifest goodWorld ["pkg.zip"] r filePaths filePathRoot m
       /\ candidatePaths
          = map (fun filePath => Ref.TrimPrefix filePath filePathRoot)
                filePaths
       /\ forall rule,
            In rule (Place (Files (Raw (metadata pkgArchive)))) ->
            (In rule (Place (Files (Raw m)))
             /\ strings.HasSuffix (Src rule) wildcard = false)
            \/ (exists candidatePath,
                  In candidatePath candidatePaths
                  /\ Src rule = Ref.String candidatePath
                  /\ exists wildcardRule sourcePrefix destPrefix,
                       In wildcardRule (Place (Files (Raw m)))
                       /\ strings.HasSuffix (Src wildcardRule) wildcard
                          = true
                       /\ Ref.Parse
                            (strings.TrimSuffix (Src wildcardRule) wildcard)
                          = inr sourcePrefix
                       /\ Ref.Parse (Dest wildcardRule) = inr destPrefix
                       /\ Ref.HasPrefix candidatePath sourcePrefix = true
                       /\ Dest rule
                          = Ref.String
                              (destPrefix
                               ++ Ref.TrimPrefix candidatePath
                                                 sourcePrefix)).
Proof.
  split; [reflexivity |].
  exact (@MakeArchive_rules Ref.paths lib goodWorld ["pkg.zip"] []
           pkgArchive eq_refl).
Defined.

(** The invariant does not hold of every archive: the manifest of
    [pkgZip] has the rule [docs/guide.md], the archive has no such
    entry, and the rule is in the [Metadata] of the archive all the
    same. *)
Lemma MakeArchive_unobserved_rule :
  exists ar,
    MakeArchive goodWorld ["pkg.zip"] [] = inr ar
    /\ map (fun filePath => Ref.TrimPrefix filePath ["pkgs"; "A"]) pkgPaths
       = pkgCandidates
    /\ ~ @resolvedInvariant Ref.paths pkgCandidates
           (Place (Files (Raw (metadata ar)))).
Proof.
  exists pkgArchive. split; [reflexivity |]. split; [reflexivity |].
  intros Hinv.
  destruct (Hinv (rule "docs/guide.md" "guide.md"))
    as [_ (candidatePath & Hin & Hsrc)].
  - simpl. auto.
  - simpl in Hin.
    destruct Hin as [<- | [<- | [<- | [<- | []]]]]; discriminate.
Qed.

(** A rule with the marker inside its [Src] is copied as well. *)
Example marker_inside_is_copied :
  @populateMetadataFilePlaceWildcards Ref.paths
    (manifest "example.com/pkg" "" [rule "lib*.so" "lib"]) candidates
  = Ok (manifest "example.com/pkg" "" [rule "lib*.so" "lib"])
  /\ strings.Contains "lib*.so" wildcard = true.
Proof. split; reflexivity. Qed.

(** [pkgZip] carries its files and is given an external archive. *)
Lemma MakeArchive_ConfigMismatch_witness :
  reachesManifest goodWorld ["pkg.zip"] pkgZip pkgPaths ["pkgs"; "A"]
                  selfManifest
  /\ AssetURL selfManifest = ""
  /\ Ref.IsEmpty ["assets.zip"] = false
  /\ MakeArchive goodWorld ["pkg.zip"] ["assets.zip"] = Err ConfigMismatch.
Proof.
  assert (Hreach : reachesManifest goodWorld ["pkg.zip"] pkgZip pkgPaths
                                   ["pkgs"; "A"] selfManifest)
    by (repeat split; reflexivity).
  split; [exact Hreach |]. do 2 (split; [reflexivity |]).
  apply (proj1 (@MakeArchive_ConfigMismatch Ref.paths lib goodWorld
                  ["pkg.zip"] ["assets.zip"])).
  exists pkgZip, pkgPaths, ["pkgs"; "A"], selfManifest.
  split; [exact Hreach |]. left. split; reflexivity.
Defined.

(** The highest version of [rcIndex] is a pre-release and is passed
    over. *)
Lemma GetLatestStableVersion_spec_witness :
  GetAvailableVersions rcWorld ctx "example.com/pkg"
  = inr ([version 3 0 0 [alpha "rc1"]]
         ++ version 2 0 0 [] :: [version 1 2 3 []])
  /\ GetLatestStableVersion rcWorld ctx "example.com/pkg"
     = Ok (version 2 0 0 []).
Proof.
  split; [reflexivity |].
  apply (proj1 (@GetLatestStableVersion_spec Ref.paths lib rcWorld ctx
                  "example.com/pkg")
           [version 3 0 0 [alpha "rc1"]] (version 2 0 0 [])
           [version 1 2 3 []]).
  - reflexivity.
  - intros u [<- | []]. discriminate.
  - reflexivity.
Defined.

(** The package of the first file of the good store is installed. *)
Lemma IsInstalled_GetMetadata_spec_witness :
  GetAllMetadata goodWorld ctx
  = inr [singleManifest; extManifest; selfManifest]
  /\ IsInstalled goodWorld ctx "example.com/pkg" = Ok true
  /\ exists m, GetMetadata goodWorld ctx "example.com/pkg" = Ok m
               /\ In m [singleManifest; extManifest; selfManifest]
               /\ ToothRepoPath m = "example.com/pkg".
Proof.
  assert (Hfound : exists m,
             In m [singleManifest; extManifest; selfManifest]
             /\ ToothRepoPath m = "example.com/pkg").
  { exists selfManifest. split; [simpl; auto | reflexivity]. }
  destruct (@IsInstalled_GetMetadata_spec Ref.paths lib goodWorld ctx
              "example.com/pkg") as (Hinstalled & _ & Hget).
  split; [reflexivity |]. split.
  - apply Hinstalled.
    exists [singleManifest; extManifest; selfManifest].
    split; [reflexivity | exact Hfound].
  - apply (Hget [singleManifest; extManifest; selfManifest]);
      [reflexivity | exact Hfound].
Defined.

(** The listing of [caseStore]: [Example.com/Zeta] comes last, behind
    [example.com/ext] and [example.com/pkg], although byte by byte it is
    below them. *)
Lemma GetAllMetadata_spec_witness :
  SortContract (@sort_Slice Ref.paths lib)
  /\ MetadataDir ctx = inr ["lip"; "metadata"]
  /\ filepath_Glob caseWorld
       (filepath_Join (Ref.String ["lip"; "metadata"]) "*.json")
     = inr (map fst caseStore)
  /\ allLoad caseWorld (map fst caseStore) = true
  /\ GetAllMetadata caseWorld ctx
     = Ok [singleManifest; extManifest; selfManifest; zetaManifest]
  /\ ascendingCaseInsensitive foldCase
       [singleManifest; extManifest; selfManifest; zetaManifest]
  /\ String.ltb (ToothRepoPath zetaManifest) (ToothRepoPath extManifest)
     = true
  /\ exists parsed metadataList,
       Forall2 (fun filePath m =>
                  loadMetadataFile caseWorld filePath = inr m)
               (map fst caseStore) parsed
       /\ GetAllMetadata caseWorld ctx = Ok metadataList
       /\ Permutation metadataList parsed
       /\ ascendingCaseInsensitive Ref.ToLower metadataList
       /\ ((forall m, In m parsed ->
              Ref.ToLower (ToothRepoPath m) = foldCase (ToothRepoPath m)) ->
           ascendingCaseInsensitive foldCase metadataList).
Proof.
  split; [exact Ref_sort_contract |].
  do 4 (split; [reflexivity |]).
  pose proof (proj1 (@GetAllMetadata_spec Ref.paths lib caseWorld ctx
                       ["lip"; "metadata"] (map fst caseStore)
                       Ref_sort_contract eq_refl eq_refl) eq_refl)
    as Hspec.
  split; [| split; [reflexivity | exact Hspec]].
  destruct Hspec as (parsed & metadataList & _ & Hlist & _ & _ & Hfold).
  assert (Hrun : GetAllMetadata caseWorld ctx
                 = Ok [singleManifest; extManifest; selfManifest;
                       zetaManifest]) by reflexivity.
  rewrite Hrun in Hlist. injection Hlist as <-.
  apply Hfold. intros m _. apply Ref_ToLower_foldCase.
Defined.

(** The second file of the broken store spoils every query, the one for
    the package of the first file included. *)
Lemma broken_store_fails_witness :
  MetadataDir ctx = inr ["lip"; "metadata"]
  /\ filepath_Glob brokenWorld
       (filepath_Join (Ref.String ["lip"; "metadata"]) "*.json")
     = inr (map fst brokenStore)
  /\ In "lip/metadata/2.json" (map fst brokenStore)
  /\ isOk (loadMetadataFile brokenWorld
                            "lip/metadata/2.json") = false
  /\ isOk (loadMetadataFile brokenWorld
                            "lip/metadata/1.json") = true
  /\ exists e,
       GetAllMetadata brokenWorld ctx = Err e
       /\ forall toothRepoPath,
            IsInstalled brokenWorld ctx toothRepoPath
            = Err (Wrap "failed to list all installed tooth metadata" e)
            /\ GetMetadata brokenWorld ctx toothRepoPath
               = Err (Wrap "failed to list all installed tooth metadata" e).
Proof.
  split; [reflexivity |]. split; [reflexivity |].
  split; [simpl; auto |]. split; [reflexivity |]. split; [reflexivity |].
  apply (@broken_store_fails Ref.paths lib brokenWorld
           ctx ["lip"; "metadata"] (map fst brokenStore)
           "lip/metadata/2.json");
    [reflexivity | reflexivity | simpl; auto | reflexivity].
Defined.

(** C6 on a body with an overlong line: the scanner stops at the line,
    [GetAvailableVersions] returns no version and no error, and the
    version of the next line is lost. *)
Theorem GetAvailableVersions_long_line :
  network_GetContent longWorld
    "https://proxy.example/example.com/pkg/@v/list" = Ok longIndex
  /\ parsedVersions (bodyLines longIndex) = [version 1 0 0 []]
  /\ GetAvailableVersions longWorld ctx
       "example.com/pkg" = Ok [].
Proof.
  split; [reflexivity |].
  split; vm_compute; reflexivity.
Qed.

(** ** The testable properties of the spec *)

Example root_of_nested_package :
  @inferRoot Ref.paths [["pkgs"; "A"; "tooth.json"]; ["pkgs"; "A"; "file.txt"]]
  = Ok ["pkgs"; "A"]
  /\ isOk (MakeArchive goodWorld ["pkg.zip"] []) = true.
Proof. split; reflexivity. Qed.

Example external_asset_archive :
  MakeArchive goodWorld ["ext.zip"] ["assets.zip"] = Ok extArchive.
Proof. reflexivity. Qed.

Example asset_location_mismatch :
  MakeArchive goodWorld ["pkg.zip"] ["assets.zip"] = Err ConfigMismatch
  /\ MakeArchive goodWorld ["ext.zip"] [] = Err ConfigMismatch.
Proof. split; reflexivity. Qed.

Example versions_of_the_index :
  GetAvailableVersions goodWorld ctx "example.com/pkg"
  = Ok [version 2 0 0 []; version 1 3 0 [alpha "rc1"]; version 1 2 3 []]
  /\ GetLatestStableVersion goodWorld ctx "example.com/pkg"
     = Ok (version 2 0 0 []).
Proof. split; reflexivity. Qed.

Example no_stable_version :
  GetLatestStableVersion (world goodStore (Ok preIndex)) ctx
                         "example.com/pkg" = Err NoStableVersion
  /\ GetLatestStableVersion (world goodStore (Ok "")) ctx
                            "example.com/pkg" = Err NoStableVersion.
Proof. split; reflexivity. Qed.

Example lookup_is_case_sensitive :
  IsInstalled goodWorld ctx "example.com/pkg" = Ok true
  /\ IsInstalled goodWorld ctx "Example.com/pkg" = Ok false
  /\ GetMetadata goodWorld ctx "example.com/ext" = Ok extManifest
  /\ GetMetadata goodWorld ctx "example.com/none"
     = Err (NotFound "example.com/none").
Proof. repeat split; reflexivity. Qed.

End Examples.

(** * Further properties of archive.go *)

Section ArchiveFurther.

Context {P : path.API} {L : Lib}.
Import path.

(** The loop of lines 137-166 over two lists of rules, one after the
    other. *)
Lemma placeLoop_app (rules1 rules2 : list RawMetadataFilesPlaceItem)
    (filePaths : list Path) (newPlace : list RawMetadataFilesPlaceItem) :
  placeLoop (rules1 ++ rules2) filePaths newPlace
  = (resolved <- placeLoop rules1 filePaths newPlace ;;
     placeLoop rules2 filePaths resolved).
Proof.
  revert newPlace.
  induction rules1 as [| rule rest IH]; intros newPlace; [reflexivity |].
  simpl.
  destruct (strings.HasSuffix (Src rule) wildcard); simpl; [| apply IH].
  destruct (Parse (strings.TrimSuffix (Src rule) wildcard)); simpl;
    [reflexivity |].
  destruct (Parse (Dest rule)); simpl; [reflexivity | apply IH].
Qed.

Lemma metadata_eta (m : Metadata) :
  {| rawMetadata := setPlace (Raw m) (Place (Files (Raw m))) |} = m.
Proof. destruct m as [[tooth url [place]]]. reflexivity. Qed.

Lemma placeLoop_copies (place : list RawMetadataFilesPlaceItem)
    (filePaths : list Path) (newPlace : list RawMetadataFilesPlaceItem) :
  forallb (fun rule => negb (strings.HasSuffix (Src rule) wildcard)) place
  = true ->
  placeLoop place filePaths newPlace = Ok (newPlace ++ place).
Proof.
  revert newPlace.
  induction place as [| rule rest IH]; intros newPlace Hplain; simpl.
  - now rewrite app_nil_r.
  - simpl in Hplain. apply andb_true_iff in Hplain as [Hrule Hrest].
    rewrite Hrule, (IH _ Hrest), <- app_assoc. reflexivity.
Qed.

(** The loop started from [newPlace] gives what it gives from the empty
    list, after [newPlace]. *)
Lemma placeLoop_shift (rules : list RawMetadataFilesPlaceItem)
    (filePaths : list Path) (newPlace : list RawMetadataFilesPlaceItem) :
  placeLoop rules filePaths newPlace
  = (resolved <- placeLoop rules filePaths [] ;; Ok (newPlace ++ resolved)).
Proof.
  revert newPlace.
  induction rules as [| rule rest IH]; intros newPlace; simpl.
  - now rewrite app_nil_r.
  - destruct (strings.HasSuffix (Src rule) wildcard); simpl.
    + destruct (Parse (strings.TrimSuffix (Src rule) wildcard))
        as [e | sourcePrefix]; simpl; [reflexivity |].
      destruct (Parse (Dest rule)) as [e | destPrefix]; simpl;
        [reflexivity |].
      rewrite (IH (expandLoop sourcePrefix destPrefix filePaths newPlace)).
      rewrite (IH (expandLoop sourcePrefix destPrefix filePaths [])).
      rewrite (expandLoop_spec sourcePrefix destPrefix filePaths newPlace).
      rewrite (expandLoop_spec sourcePrefix destPrefix filePaths []).
      destruct (placeLoop rest filePaths []); simpl; [reflexivity |].
      now rewrite <- app_assoc.
    + rewrite (IH (newPlace ++ [rule])), (IH [rule]).
      destruct (placeLoop rest filePaths []); simpl; [reflexivity |].
      now rewrite <- app_assoc.
Qed.

(** X1. Resolving a manifest whose rules are two lists in a row is
    resolving the first list, then the second, and putting the results
    in a row: the rules are resolved one after the other, each on its
    own, and a failure in the first list is the failure of the whole. *)
Theorem populate_concatenation (m : Metadata)
    (rules1 rules2 : list RawMetadataFilesPlaceItem)
    (filePaths : list Path) :
  Place (Files (Raw m)) = rules1 ++ rules2 ->
  populateMetadataFilePlaceWildcards m filePaths
  = (first <- populateMetadataFilePlaceWildcards
                {| rawMetadata := setPlace (Raw m) rules1 |} filePaths ;;
     second <- populateMetadataFilePlaceWildcards
                 {| rawMetadata := setPlace (Raw m) rules2 |} filePaths ;;
     Ok {| rawMetadata :=
             setPlace (Raw m) (Place (Files (Raw first))
                               ++ Place (Files (Raw second))) |}).
Proof.
  intros Hplace. unfold populateMetadataFilePlaceWildcards. simpl.
  rewrite Hplace, placeLoop_app.
  destruct (placeLoop rules1 filePaths []) as [e | resolved1]; simpl;
    [reflexivity |].
  rewrite (placeLoop_shift rules2 filePaths resolved1).
  destruct (placeLoop rules2 filePaths []); reflexivity.
Qed.

(** X2. A manifest none of whose rules ends in the marker is returned
    as it is, whatever the file list: no path is parsed and the
    resolution cannot fail. *)
Theorem populate_without_wildcards (m : Metadata) (filePaths : list Path) :
  forallb (fun rule => negb (strings.HasSuffix (Src rule) wildcard))
          (Place (Files (Raw m))) = true ->
  populateMetadataFilePlaceWildcards m filePaths = Ok m.
Proof.
  intros Hplain. unfold populateMetadataFilePlaceWildcards.
  rewrite (placeLoop_copies _ filePaths [] Hplain). simpl.
  unfold Ok. now rewrite metadata_eta.
Qed.

(** X3. Against an empty file list the wildcard rules vanish: what is
    left is the rules that do not end in the marker, in their order. The
    prefixes of the wildcard rules are parsed all the same, and must
    parse. *)
Theorem populate_no_candidates (m : Metadata) :
  forallb wellFormedRule (Place (Files (Raw m))) = true ->
  populateMetadataFilePlaceWildcards m []
  = Ok {| rawMetadata :=
            setPlace (Raw m)
              (filter (fun rule =>
                         negb (strings.HasSuffix (Src rule) wildcard))
                      (Place (Files (Raw m)))) |}.
Proof.
  intros Hwf. rewrite (populate_ok m [] Hwf). do 3 f_equal.
  unfold ResolvePlacement.
  induction (Place (Files (Raw m))) as [| rule rest IH]; [reflexivity |].
  simpl in Hwf. apply andb_true_iff in Hwf as [_ Hrest].
  simpl. rewrite (IH Hrest). unfold expansion.
  destruct (strings.HasSuffix (Src rule) wildcard); simpl; [| reflexivity].
  destruct (Parse (strings.TrimSuffix (Src rule) wildcard));
    [reflexivity |].
  destruct (Parse (Dest rule)); reflexivity.
Qed.

(** X4. The resolution fails at the first wildcard rule that does not
    parse, whatever the file list and the rules after it: with the error
    of the source prefix when that does not parse, the destination not
    being looked at, and with the error of the destination otherwise. *)
Theorem populate_first_error (m : Metadata) (filePaths : list Path)
    (before after : list RawMetadataFilesPlaceItem)
    (rule : RawMetadataFilesPlaceItem) :
  Place (Files (Raw m)) = before ++ rule :: after ->
  forallb wellFormedRule before = true ->
  strings.HasSuffix (Src rule) wildcard = true ->
  (forall e,
     Parse (strings.TrimSuffix (Src rule) wildcard) = inl e ->
     populateMetadataFilePlaceWildcards m filePaths
     = Err (Wrap "failed to parse source path prefix" e))
  /\ (forall sourcePrefix e,
        Parse (strings.TrimSuffix (Src rule) wildcard) = inr sourcePrefix ->
        Parse (Dest rule) = inl e ->
        populateMetadataFilePlaceWildcards m filePaths
        = Err (Wrap "failed to parse destination path prefix" e)).
Proof.
  intros Hplace Hbefore Hwild.
  unfold populateMetadataFilePlaceWildcards. rewrite Hplace, placeLoop_app.
  rewrite (placeLoop_ok before filePaths [] Hbefore). simpl.
  rewrite Hwild. simpl. split.
  - intros e Hsrc. rewrite Hsrc. reflexivity.
  - intros sourcePrefix e Hsrc Hdest. rewrite Hsrc. simpl.
    rewrite Hdest. reflexivity.
Qed.

End ArchiveFurther.

Section MakeArchiveFurther.

Context {P : path.API} {L : Lib}.
Import path.

Lemma populate_identity (m resolved : Metadata) (filePaths : list Path) :
  populateMetadataFilePlaceWildcards m filePaths = inr resolved ->
  ToothRepoPath resolved = ToothRepoPath m
  /\ AssetURL resolved = AssetURL m.
Proof.
  unfold populateMetadataFilePlaceWildcards. intros H.
  apply bind_inr in H as (newPlace & _ & H). injection H as <-.
  split; reflexivity.
Qed.

Lemma archiveFromManifest_passed (archiveFilePath assetPath : Path)
    (filePaths : list Path) (filePathRoot : Path) (m : Metadata)
    (ar : Archive) :
  archiveFromManifest archiveFilePath assetPath filePaths filePathRoot m
  = inr ar ->
  (AssetURL m = "" <-> IsEmpty assetPath = true).
Proof.
  unfold archiveFromManifest.
  destruct (String.eqb_spec (AssetURL m) "") as [Hurl | Hurl];
    destruct (IsEmpty assetPath); simpl; intros H;
    try discriminate; split; intros H'; congruence.
Qed.

(** X5. The [Metadata] of an archive has the identity and the asset URL
    of the manifest found in the archive: the resolution of the
    wildcards changes the rules and nothing else. *)
Theorem MakeArchive_identity (w : World) (archiveFilePath assetPath : Path)
    (ar : Archive) :
  MakeArchive w archiveFilePath assetPath = inr ar ->
  exists r filePaths filePathRoot m,
    reachesManifest w archiveFilePath r filePaths filePathRoot m
    /\ ToothRepoPath (metadata ar) = ToothRepoPath m
    /\ AssetURL (metadata ar) = AssetURL m.
Proof.
  intros Hmake.
  apply MakeArchive_resolution in Hmake
    as (r & filePaths & filePathRoot & m & Hreach & Hpop & _ & _).
  exists r, filePaths, filePathRoot, m. split; [exact Hreach |].
  exact (populate_identity _ _ Hpop).
Qed.

(** X6. An archive that [MakeArchive] returns keeps the two asset
    locations apart: its [Metadata] has no asset URL exactly when no
    external asset archive was given, and then the asset archive is the
    archive itself; with an asset URL the asset archive is the external
    one and its root is the empty path. *)
Theorem MakeArchive_asset_location (w : World)
    (archiveFilePath assetPath : Path) (ar : Archive) :
  MakeArchive w archiveFilePath assetPath = inr ar ->
  (AssetURL (metadata ar) = "" <-> IsEmpty assetPath = true)
  /\ (AssetURL (metadata ar) = "" ->
      AssetArchiveFilePath ar = archiveFilePath)
  /\ (AssetURL (metadata ar) <> "" ->
      AssetArchiveFilePath ar = assetPath
      /\ AssetArchiveFilePathRoot ar = MakeEmpty).
Proof.
  intros Hmake.
  destruct (MakeArchive_inr _ _ _ Hmake)
    as (r & filePaths & filePathRoot & m & Hreach & Hfrom).
  pose proof (archiveFromManifest_passed _ _ _ _ _ Hfrom) as Hiff.
  apply MakeArchive_resolution in Hmake
    as (r' & filePaths' & filePathRoot' & m' & Hreach' & Hpop & Hpath
        & Hroot).
  destruct (reachesManifest_unique Hreach Hreach') as (_ & _ & _ & <-).
  destruct (populate_identity _ _ Hpop) as [_ Hurl].
  unfold AssetArchiveFilePath, AssetArchiveFilePathRoot.
  rewrite Hurl. split; [exact Hiff |]. split.
  - intros Hempty. apply Hiff in Hempty. now rewrite Hempty in Hpath.
  - intros Hset.
    destruct (IsEmpty assetPath) eqn:Hempty.
    + exfalso. apply Hset. now apply Hiff.
    + auto.
Qed.

Lemma findFile_first (before after : list gozip.File) (file : gozip.File)
    (name : string) :
  (forall f, In f before -> gozip.Name f <> name) ->
  gozip.Name file = name ->
  findFile (before ++ file :: after) name = Some file.
Proof.
  intros Hbefore Hfile. induction before as [| f before IH]; simpl.
  - rewrite Hfile, String.eqb_refl. reflexivity.
  - destruct (String.eqb_spec (gozip.Name f) name) as [Heq | _].
    + exfalso. apply (Hbefore f); [now left | exact Heq].
    + apply IH. intros f' Hf'. apply Hbefore. now right.
Qed.

Lemma findFile_none (files : list gozip.File) (name : string) :
  (forall f, In f files -> gozip.Name f <> name) ->
  findFile files name = None.
Proof.
  intros Hnone. induction files as [| f files IH]; simpl; [reflexivity |].
  destruct (String.eqb_spec (gozip.Name f) name) as [Heq | _].
  - exfalso. apply (Hnone f); [now left | exact Heq].
  - apply IH. intros f' Hf'. apply Hnone. now right.
Qed.

(** X7. The manifest is the first entry of the archive whose name is the
    string of the root joined with [tooth.json]: what comes after that
    entry, entries of the same name included, plays no part in finding
    and reading the manifest, and an archive without such an entry fails
    with [ManifestNotFound]. *)
Theorem MakeArchive_manifest_entry (w : World)
    (archiveFilePath assetPath : Path) (r : gozip.ReadCloser)
    (filePaths : list Path) (filePathRoot : Path) :
  gozip_OpenReader w (LocalString archiveFilePath) = inr r ->
  zip_GetFilePaths r = inr filePaths ->
  inferRoot filePaths = inr filePathRoot ->
  ((forall f, In f (gozip.Files r) ->
      gozip.Name f <> String (Join filePathRoot (MustParse "tooth.json"))) ->
   MakeArchive w archiveFilePath assetPath = Err ManifestNotFound)
  /\ (forall before file after,
        gozip.Files r = before ++ file :: after ->
        (forall f, In f before ->
           gozip.Name f
           <> String (Join filePathRoot (MustParse "tooth.json"))) ->
        gozip.Name file
        = String (Join filePathRoot (MustParse "tooth.json")) ->
        MakeArchive w archiveFilePath assetPath
        = (m <- (reader <- wrap "failed to open tooth.json"
                                (gozip.Open file) ;;
                 bytes <- wrap "failed to read tooth.json"
                               (gozip.ReadAll reader) ;;
                 wrap "failed to parse tooth.json" (MakeMetadata bytes)) ;;
           archiveFromManifest archiveFilePath assetPath filePaths
                               filePathRoot m)).
Proof.
  intros Hopen Hpaths Hroot.
  assert (Hmake : MakeArchive w archiveFilePath assetPath
                  = (m <- readManifest r filePathRoot ;;
                     archiveFromManifest archiveFilePath assetPath
                                         filePaths filePathRoot m)).
  { unfold MakeArchive. rewrite Hopen. simpl. rewrite Hpaths. simpl.
    rewrite Hroot. reflexivity. }
  rewrite Hmake. unfold readManifest. split.
  - intros Hnone. now rewrite (@findFile_none _ _ Hnone).
  - intros before file after Hfiles Hbefore Hfile.
    now rewrite Hfiles, (@findFile_first before after file _ Hbefore Hfile).
Qed.

(** X8. An external asset archive path is recorded in the archive and
    not read: for two such paths [MakeArchive] fails alike or returns
    archives that differ in the recorded path only. *)
Theorem MakeArchive_external_path (w : World)
    (archiveFilePath assetPath1 assetPath2 : Path) :
  IsEmpty assetPath1 = false ->
  IsEmpty assetPath2 = false ->
  MakeArchive w archiveFilePath assetPath2
  = match MakeArchive w archiveFilePath assetPath1 with
    | inl e => inl e
    | inr ar =>
        inr {| metadata := metadata ar;
               assetArchiveFilePath := assetPath2;
               assetArchiveFilePathRoot := assetArchiveFilePathRoot ar |}
    end.
Proof.
  intros Hempty1 Hempty2. unfold MakeArchive.
  destruct (gozip_OpenReader w (LocalString archiveFilePath)) as [e | r];
    simpl; [reflexivity |].
  destruct (zip_GetFilePaths r) as [e | filePaths]; simpl; [reflexivity |].
  destruct (inferRoot filePaths) as [e | filePathRoot]; simpl;
    [reflexivity |].
  destruct (readManifest r filePathRoot) as [e | m]; simpl; [reflexivity |].
  unfold archiveFromManifest. rewrite Hempty1, Hempty2.
  destruct (AssetURL m =? ""); simpl; [reflexivity |].
  destruct (populateMetadataFilePlaceWildcards m filePaths); reflexivity.
Qed.

End MakeArchiveFurther.

(** * Further properties of utils.go *)

(** ** Prefixes and suffixes of strings *)

Lemma string_length_app (s t : string) :
  String.length (s ++ t) = String.length s + String.length t.
Proof. induction s as [| c s IH]; simpl; [reflexivity | now rewrite IH]. Qed.

Lemma prefix_app (p s : string) : String.prefix p (p ++ s) = true.
Proof.
  induction p as [| c p IH]; simpl.
  - destruct s; reflexivity.
  - destruct (ascii_dec c c) as [_ | Hne]; [exact IH | contradiction].
Qed.

Lemma substring_skip (p s : string) (m : nat) :
  substring (String.length p) m (p ++ s) = substring 0 m s.
Proof. induction p as [| c p IH]; simpl; [reflexivity | exact IH]. Qed.

Lemma substring_take (s t : string) :
  substring 0 (String.length s) (s ++ t) = s.
Proof.
  induction s as [| c s IH]; simpl.
  - destruct t; reflexivity.
  - now rewrite IH.
Qed.

Lemma substring_all (s : string) : substring 0 (String.length s) s = s.
Proof.
  induction s as [| c s IH]; simpl; [reflexivity | now rewrite IH].
Qed.

Lemma TrimPrefix_app (p s : string) : strings.TrimPrefix (p ++ s) p = s.
Proof.
  unfold strings.TrimPrefix, strings.HasPrefix.
  rewrite prefix_app, substring_skip, string_length_app.
  replace (String.length p + String.length s - String.length p)
    with (String.length s) by lia.
  apply substring_all.
Qed.

Lemma HasSuffix_app (s suffix : string) :
  strings.HasSuffix (s ++ suffix) suffix = true.
Proof.
  unfold strings.HasSuffix. rewrite string_length_app.
  replace (String.length s + String.length suffix - String.length suffix)
    with (String.length s) by lia.
  rewrite substring_skip, substring_all, String.eqb_refl, andb_true_r.
  apply Nat.leb_le. lia.
Qed.

Lemma TrimSuffix_app (s suffix : string) :
  strings.TrimSuffix (s ++ suffix) suffix = s.
Proof.
  unfold strings.TrimSuffix. rewrite HasSuffix_app, string_length_app.
  replace (String.length s + String.length suffix - String.length suffix)
    with (String.length s) by lia.
  apply substring_take.
Qed.

(** ** The scanner *)

(** The scanner yields an initial run of the lines of the body. *)
Lemma tokens_initial (segs : list string) :
  exists lost,
    map bufio.dropCR
        (if last segs "" =? "" then removelast segs else segs)
    = bufio.tokens segs ++ lost.
Proof.
  induction segs as [| seg rest IH]; [exists []; reflexivity |].
  destruct rest as [| seg' rest].
  - simpl. destruct (seg =? ""); [exists []; reflexivity |].
    destruct (bufio.tooLong seg); eexists; reflexivity.
  - destruct IH as [lost IH].
    change (bufio.tokens (seg :: seg' :: rest))
      with (if bufio.tooLong seg then []
            else bufio.dropCR seg :: bufio.tokens (seg' :: rest)).
    change (last (seg :: seg' :: rest) "") with (last (seg' :: rest) "").
    change (removelast (seg :: seg' :: rest))
      with (seg :: removelast (seg' :: rest)).
    destruct (bufio.tooLong seg); [eexists; reflexivity |].
    exists lost.
    destruct (last (seg' :: rest) "" =? ""); simpl in *; now rewrite IH.
Qed.

Lemma Scan_initial (content : string) :
  exists lost, bodyLines content = bufio.Scan content ++ lost.
Proof. apply tokens_initial. Qed.

Section VersionsFurther.

Context {P : path.API} {L : Lib}.
Import path.

Lemma parsedVersions_In (lines : list string) (v : semver.Version) :
  In v (parsedVersions lines)
  <-> exists line, In line lines /\ lineVersion line = Some v.
Proof.
  induction lines as [| line rest IH]; simpl.
  - split; [intros [] | intros (l & [] & _)].
  - destruct (lineVersion line) as [u |] eqn:Hline; simpl.
    + rewrite IH. split.
      * intros [<- | (l & Hl & Hv)]; [exists line; auto |].
        exists l. auto.
      * intros (l & [<- | Hl] & Hv); [left; congruence |].
        right. exists l. auto.
    + rewrite IH. split.
      * intros (l & Hl & Hv). exists l. auto.
      * intros (l & [<- | Hl] & Hv); [congruence |]. exists l. auto.
Qed.

Lemma parsedVersions_length (lines : list string) :
  List.length (parsedVersions lines) <= List.length lines.
Proof.
  induction lines as [| line rest IH]; simpl; [lia |].
  destruct (lineVersion line); simpl; lia.
Qed.

Lemma versionLoop_cons (line : string) (rest : list string)
    (versionList : list semver.Version) :
  versionLoop (line :: rest) versionList
  = match semver_Parse
            (strings.TrimSuffix (strings.TrimPrefix line "v")
                                "+incompatible") with
    | inl _ => versionLoop rest versionList
    | inr version => versionLoop rest (versionList ++ [version])
    end.
Proof. reflexivity. Qed.

(** X9. The loop over the lines hands the parser a line without its
    leading "v" and its trailing "+incompatible", each taken off once: a
    line with both marks around [s] counts as [s], and so does a line
    [s] with neither mark. *)
Theorem versionLoop_strips_marks (s : string) (rest : list string)
    (versionList : list semver.Version) :
  versionLoop (("v" ++ s ++ "+incompatible")%string :: rest) versionList
  = match semver_Parse s with
    | inl _ => versionLoop rest versionList
    | inr version => versionLoop rest (versionList ++ [version])
    end
  /\ (strings.HasPrefix s "v" = false ->
      strings.HasSuffix s "+incompatible" = false ->
      versionLoop (s :: rest) versionList
      = match semver_Parse s with
        | inl _ => versionLoop rest versionList
        | inr version => versionLoop rest (versionList ++ [version])
        end).
Proof.
  split.
  - rewrite versionLoop_cons.
    rewrite (TrimPrefix_app "v" (s ++ "+incompatible")).
    rewrite TrimSuffix_app. reflexivity.
  - intros Hprefix Hsuffix. rewrite versionLoop_cons.
    unfold strings.TrimPrefix. rewrite Hprefix.
    unfold strings.TrimSuffix. rewrite Hsuffix. reflexivity.
Qed.

(** X10. Whatever the fetched body, [GetAvailableVersions] returns, by
    descending precedence, the versions of an initial run of the lines
    of the body: every version it returns is that of a line of the body,
    and a line gives one version at most. *)
Theorem GetAvailableVersions_any_body (w : World) (ctx : Context)
    (toothRepoPath : string) (proxy versionURL : URL) (content : string) :
  SortContract (@sort_Sort P L) ->
  module_CheckPath toothRepoPath = None ->
  GoModuleProxyURL ctx = inr proxy ->
  network_GenerateGoModuleVersionListURL toothRepoPath proxy
  = inr versionURL ->
  network_GetContent w versionURL = inr content ->
  exists versionList used lost,
    GetAvailableVersions w ctx toothRepoPath = Ok versionList
    /\ bodyLines content = used ++ lost
    /\ Permutation versionList (parsedVersions used)
    /\ descending versionList
    /\ (forall v, In v versionList ->
          exists line, In line (bodyLines content)
                       /\ lineVersion line = Some v)
    /\ List.length versionList <= List.length (bodyLines content).
Proof.
  intros Hsort Hcheck Hproxy Hurl Hcontent.
  rewrite (GetAvailableVersions_fetched w ctx toothRepoPath
             Hcheck Hproxy Hurl Hcontent).
  destruct (Scan_initial content) as [lost Hlines].
  destruct (sorted_versions_descending
              (parsedVersions (bufio.Scan content)) Hsort)
    as [Hperm Hdesc].
  eexists. exists (bufio.Scan content), lost.
  split; [reflexivity |]. split; [exact Hlines |].
  split; [exact Hperm |]. split; [exact Hdesc |]. split.
  - intros v Hv.
    apply (Permutation_in _ Hperm), parsedVersions_In in Hv
      as (line & Hline & Hparse).
    exists line. split; [| exact Hparse].
    rewrite Hlines. apply in_or_app. now left.
  - rewrite (Permutation_length Hperm), Hlines, length_app.
    pose proof (parsedVersions_length (bufio.Scan content)). lia.
Qed.

Lemma stableLoop_inr (versionList : list semver.Version)
    (v : semver.Version) :
  stableLoop versionList = inr v ->
  exists before after,
    versionList = before ++ v :: after
    /\ (forall u, In u before -> semver.Pre u <> [])
    /\ semver.Pre v = [].
Proof.
  induction versionList as [| u rest IH]; simpl; [discriminate |].
  destruct (semver.Pre u) eqn:Hu; simpl.
  - intros H. injection H as <-. exists [], rest.
    split; [reflexivity |]. split; [intros u' [] | exact Hu].
  - intros H. destruct (IH H) as (before & after & -> & Hbefore & Hv).
    exists (u :: before), after. split; [reflexivity |].
    split; [| exact Hv].
    intros u' [<- | Hu']; [congruence | now apply Hbefore].
Qed.

Lemma StronglySorted_after (A : Type) (R : A -> A -> Prop)
    (before after : list A) (x : A) :
  StronglySorted R (before ++ x :: after) -> Forall (R x) after.
Proof.
  induction before as [| y before IH]; simpl; intros H;
    inversion H; subst; auto.
Qed.

(** X11. The version [GetLatestStableVersion] returns has no pre-release
    part, is the version of a line the scanner yields, and no line
    yields a version without a pre-release part that is above it. *)
Theorem GetLatestStableVersion_greatest (w : World) (ctx : Context)
    (toothRepoPath : string) (proxy versionURL : URL) (content : string)
    (v : semver.Version) :
  SortContract (@sort_Sort P L) ->
  module_CheckPath toothRepoPath = None ->
  GoModuleProxyURL ctx = inr proxy ->
  network_GenerateGoModuleVersionListURL toothRepoPath proxy
  = inr versionURL ->
  network_GetContent w versionURL = inr content ->
  GetLatestStableVersion w ctx toothRepoPath = inr v ->
  semver.Pre v = []
  /\ (exists line, In line (bufio.Scan content)
                   /\ lineVersion line = Some v)
  /\ (forall line u,
        In line (bufio.Scan content) ->
        lineVersion line = Some u ->
        semver.Pre u = [] ->
        semver.LT v u = false).
Proof.
  intros Hsort Hcheck Hproxy Hurl Hcontent Hlatest.
  unfold GetLatestStableVersion in Hlatest.
  rewrite (GetAvailableVersions_fetched w ctx toothRepoPath
             Hcheck Hproxy Hurl Hcontent) in Hlatest.
  simpl in Hlatest.
  destruct (sorted_versions_descending
              (parsedVersions (bufio.Scan content)) Hsort)
    as [Hperm Hdesc].
  apply stableLoop_inr in Hlatest
    as (before & after & Hlist & Hbefore & Hstable).
  rewrite Hlist in Hperm, Hdesc.
  split; [exact Hstable |]. split.
  - apply parsedVersions_In. apply (Permutation_in _ Hperm).
    apply in_or_app. right. now left.
  - intros line u Hline Hparse Hu.
    assert (Hin : In u (before ++ v :: after)).
    { apply (Permutation_in _ (Permutation_sym Hperm)).
      apply parsedVersions_In. exists line. auto. }
    apply in_app_or in Hin as [Hin | [<- | Hin]].
    + exfalso. exact (Hbefore u Hin Hu).
    + apply (proj1 LT_StrictWeakOrder).
    + apply StronglySorted_after in Hdesc.
      rewrite Forall_forall in Hdesc. now apply Hdesc.
Qed.

(** X12. For a fetched body [GetLatestStableVersion] fails with
    [NoStableVersion] if and only if every version the scanned lines
    give has a pre-release part. *)
Theorem GetLatestStableVersion_none (w : World) (ctx : Context)
    (toothRepoPath : string) (proxy versionURL : URL) (content : string) :
  SortContract (@sort_Sort P L) ->
  module_CheckPath toothRepoPath = None ->
  GoModuleProxyURL ctx = inr proxy ->
  network_GenerateGoModuleVersionListURL toothRepoPath proxy
  = inr versionURL ->
  network_GetContent w versionURL = inr content ->
  (GetLatestStableVersion w ctx toothRepoPath = Err NoStableVersion
   <-> forall line u,
         In line (bufio.Scan content) ->
         lineVersion line = Some u ->
         semver.Pre u <> []).
Proof.
  intros Hsort Hcheck Hproxy Hurl Hcontent.
  unfold GetLatestStableVersion.
  rewrite (GetAvailableVersions_fetched w ctx toothRepoPath
             Hcheck Hproxy Hurl Hcontent).
  simpl. rewrite stableLoop_none.
  destruct (sorted_versions_descending
              (parsedVersions (bufio.Scan content)) Hsort)
    as [Hperm _].
  split.
  - intros Hnone line u Hline Hparse. apply Hnone.
    apply (Permutation_in _ (Permutation_sym Hperm)).
    apply parsedVersions_In. exists line. auto.
  - intros Hnone u Hu.
    apply (Permutation_in _ Hperm), parsedVersions_In in Hu
      as (line & Hline & Hparse).
    exact (Hnone line u Hline Hparse).
Qed.

(** X13. The loop of lines 138-140 turns the list around, whatever its
    length, and run on its own result gives the list back. *)
Theorem reverseLoop_reverses (versionList : list semver.Version) :
  reverseLoop (List.length versionList) versionList
              0 (List.length versionList - 1)
  = rev versionList
  /\ reverseLoop (List.length versionList)
       (reverseLoop (List.length versionList) versionList
                    0 (List.length versionList - 1))
       0 (List.length versionList - 1)
     = versionList.
Proof.
  rewrite reverseLoop_rev. split; [reflexivity |].
  rewrite <- (length_rev versionList).
  rewrite reverseLoop_rev. apply rev_involutive.
Qed.

End VersionsFurther.

Section RegistryFurther.

Context {P : path.API} {L : Lib}.
Import path.

(** X14. With no manifest file in the store, the listing is empty, no
    package is installed and no metadata is found, whatever the queried
    path. *)
Theorem empty_store (w : World) (ctx : Context) (metadataDir : Path) :
  SortContract (@sort_Slice P L) ->
  MetadataDir ctx = inr metadataDir ->
  filepath_Glob w (filepath_Join (LocalString metadataDir) "*.json")
  = inr [] ->
  GetAllMetadata w ctx = Ok []
  /\ forall toothRepoPath,
       IsInstalled w ctx toothRepoPath = Ok false
       /\ GetMetadata w ctx toothRepoPath = Err (NotFound toothRepoPath).
Proof.
  intros Hsort Hdir Hglob.
  assert (Hlist : GetAllMetadata w ctx = Ok []).
  { rewrite (GetAllMetadata_listed w ctx Hdir Hglob). simpl.
    destruct (Hsort _ lessRepoPath []) as [Hperm _].
    apply Permutation_sym, Permutation_nil in Hperm.
    unfold Ok. now rewrite Hperm. }
  split; [exact Hlist |].
  intros toothRepoPath. unfold IsInstalled, GetMetadata.
  rewrite Hlist. split; reflexivity.
Qed.

Lemma installedLoop_metadataLoop (metadataList : list Metadata)
    (toothRepoPath : string) :
  installedLoop metadataList toothRepoPath
  = isOk (metadataLoop metadataList toothRepoPath).
Proof.
  induction metadataList as [| m rest IH]; simpl; [reflexivity |].
  destruct (ToothRepoPath m =? toothRepoPath); [reflexivity | exact IH].
Qed.

Lemma metadataLoop_inl (metadataList : list Metadata)
    (toothRepoPath : string) (e : error) :
  metadataLoop metadataList toothRepoPath = inl e ->
  e = NotFound toothRepoPath.
Proof.
  induction metadataList as [| m rest IH]; simpl.
  - intros H. now injection H as <-.
  - destruct (ToothRepoPath m =? toothRepoPath); [discriminate | exact IH].
Qed.

Lemma metadataLoop_inr (metadataList : list Metadata)
    (toothRepoPath : string) (m : Metadata) :
  metadataLoop metadataList toothRepoPath = inr m ->
  exists before after,
    metadataList = before ++ m :: after
    /\ (forall x, In x before -> ToothRepoPath x <> toothRepoPath)
    /\ ToothRepoPath m = toothRepoPath.
Proof.
  induction metadataList as [| x rest IH]; simpl; [discriminate |].
  destruct (String.eqb_spec (ToothRepoPath x) toothRepoPath) as [Heq | Hne].
  - intros H. injection H as <-. exists [], rest.
    split; [reflexivity |]. split; [intros y [] | exact Heq].
  - intros H. destruct (IH H) as (before & after & -> & Hbefore & Hm).
    exists (x :: before), after. split; [reflexivity |].
    split; [| exact Hm].
    intros y [<- | Hy]; [exact Hne | now apply Hbefore].
Qed.

Lemma metadataLoop_first (before after : list Metadata) (m : Metadata)
    (toothRepoPath : string) :
  (forall x, In x before -> ToothRepoPath x <> toothRepoPath) ->
  ToothRepoPath m = toothRepoPath ->
  metadataLoop (before ++ m :: after) toothRepoPath = Ok m.
Proof.
  intros Hbefore Hm. induction before as [| x before IH]; simpl.
  - apply String.eqb_eq in Hm. now rewrite Hm.
  - destruct (String.eqb_spec (ToothRepoPath x) toothRepoPath)
      as [Heq | _].
    + exfalso. apply (Hbefore x); [now left | exact Heq].
    + apply IH. intros y Hy. apply Hbefore. now right.
Qed.

(** X15. [IsInstalled] and [GetMetadata] agree on every store and every
    path: the one answers true exactly when the other returns a
    manifest, false exactly when the other fails with [NotFound], and
    fails exactly when the other fails with another error, the same
    one. *)
Theorem IsInstalled_agrees_with_GetMetadata (w : World) (ctx : Context)
    (toothRepoPath : string) :
  (IsInstalled w ctx toothRepoPath = Ok true
   <-> exists m, GetMetadata w ctx toothRepoPath = Ok m)
  /\ (IsInstalled w ctx toothRepoPath = Ok false
      <-> GetMetadata w ctx toothRepoPath = Err (NotFound toothRepoPath))
  /\ (forall e,
        IsInstalled w ctx toothRepoPath = Err e
        <-> GetMetadata w ctx toothRepoPath = Err e
            /\ e <> NotFound toothRepoPath).
Proof.
  unfold IsInstalled, GetMetadata.
  destruct (GetAllMetadata w ctx) as [e' | metadataList]; simpl.
  - split; [| split].
    + split; [discriminate | intros (m & Hm); discriminate].
    + split; discriminate.
    + intros e. split.
      * intros H. injection H as <-. split; [reflexivity | discriminate].
      * intros [H _]. injection H as <-. reflexivity.
  - rewrite installedLoop_metadataLoop.
    destruct (metadataLoop metadataList toothRepoPath) as [e' | m] eqn:Hloop;
      simpl.
    + apply metadataLoop_inl in Hloop. subst e'.
      split; [| split].
      * split; [discriminate | intros (m & Hm); discriminate].
      * split; reflexivity.
      * intros e. split; [discriminate |].
        intros [H Hne]. injection H as <-. contradiction.
    + split; [| split].
      * split; [intros _; now exists m | reflexivity].
      * split; discriminate.
      * intros e. split; [discriminate | intros [H _]; discriminate].
Qed.

(** X16. [GetMetadata] returns the first manifest of the listing that
    has the queried path, and a manifest it returns has that path: of
    two installed manifests of one path, the one the listing puts first
    is found. *)
Theorem GetMetadata_first_match (w : World) (ctx : Context)
    (toothRepoPath : string) :
  (forall m,
     GetMetadata w ctx toothRepoPath = inr m ->
     ToothRepoPath m = toothRepoPath
     /\ exists before after,
          GetAllMetadata w ctx = inr (before ++ m :: after)
          /\ forall x, In x before -> ToothRepoPath x <> toothRepoPath)
  /\ (forall before m after,
        GetAllMetadata w ctx = inr (before ++ m :: after) ->
        (forall x, In x before -> ToothRepoPath x <> toothRepoPath) ->
        ToothRepoPath m = toothRepoPath ->
        GetMetadata w ctx toothRepoPath = Ok m).
Proof.
  unfold GetMetadata. split.
  - intros m H.
    destruct (GetAllMetadata w ctx) as [e | metadataList]; simpl in H;
      [discriminate |].
    apply metadataLoop_inr in H as (before & after & -> & Hbefore & Hm).
    split; [exact Hm |]. exists before, after. auto.
  - intros before m after Hlist Hbefore Hm. rewrite Hlist. simpl.
    now apply metadataLoop_first.
Qed.

Lemma allLoad_false (w : World) (filePaths : list string) :
  allLoad w filePaths = false ->
  exists filePath,
    In filePath filePaths /\ isOk (loadMetadataFile w filePath) = false.
Proof.
  unfold allLoad. induction filePaths as [| f rest IH]; simpl;
    [discriminate |].
  destruct (isOk (loadMetadataFile w f)) eqn:Hf; simpl.
  - intros H. destruct (IH H) as (g & Hg & Hbroken). exists g. auto.
  - intros _. exists f. auto.
Qed.

(** X17. A listing that succeeds is complete: every manifest file of the
    store was read and parsed, its manifest is in the listing, and the
    listing has as many manifests as the store has files, two files of
    one repository path counting twice. *)
Theorem GetAllMetadata_complete (w : World) (ctx : Context)
    (metadataDir : Path) (filePaths : list string)
    (metadataList : list Metadata) :
  SortContract (@sort_Slice P L) ->
  MetadataDir ctx = inr metadataDir ->
  filepath_Glob w (filepath_Join (LocalString metadataDir) "*.json")
  = inr filePaths ->
  GetAllMetadata w ctx = inr metadataList ->
  List.length metadataList = List.length filePaths
  /\ forall filePath, In filePath filePaths ->
       exists m, loadMetadataFile w filePath = inr m /\ In m metadataList.
Proof.
  intros Hsort Hdir Hglob Hlist.
  rewrite (GetAllMetadata_listed w ctx Hdir Hglob) in Hlist.
  destruct (allLoad w filePaths) eqn:Hall.
  - destruct (readLoop_ok w filePaths [] Hall) as (parsed & Hparsed & Hloop).
    rewrite Hloop in Hlist. simpl in Hlist. injection Hlist as <-.
    destruct (Hsort _ lessRepoPath parsed) as [Hperm _]. split.
    + rewrite (Permutation_length Hperm).
      symmetry. exact (Forall2_length Hparsed).
    + intros filePath Hin.
      assert (Hm : exists m, loadMetadataFile w filePath = inr m
                             /\ In m parsed).
      { clear - Hparsed Hin.
        induction Hparsed as [| f m fs ms Hf _ IH]; [contradiction |].
        destruct Hin as [<- | Hin].
        - exists m. split; [exact Hf | now left].
        - destruct (IH Hin) as (m' & Hm' & Hin'). exists m'.
          split; [exact Hm' | now right]. }
      destruct Hm as (m & Hm & Hin'). exists m. split; [exact Hm |].
      exact (Permutation_in _ (Permutation_sym Hperm) Hin').
  - exfalso. apply allLoad_false in Hall as (broken & Hin & Hbroken).
    destruct (first_broken w filePaths broken Hin Hbroken)
      as (before & first & after & e & -> & Hbefore & Hfirst).
    rewrite (readLoop_err w before after first [] Hbefore Hfirst) in Hlist.
    discriminate.
Qed.

Lemma readLoop_same_files (w1 w2 : World) (filePaths : list string)
    (metadataList : list Metadata) :
  (forall filePath, In filePath filePaths ->
     os_ReadFile w1 filePath = os_ReadFile w2 filePath) ->
  readLoop w1 filePaths metadataList = readLoop w2 filePaths metadataList.
Proof.
  revert metadataList.
  induction filePaths as [| f rest IH]; intros metadataList Hsame;
    [reflexivity |].
  simpl. rewrite (Hsame f) by now left.
  destruct (os_ReadFile w2 f) as [e | jsonBytes]; simpl; [reflexivity |].
  destruct (MakeMetadata jsonBytes) as [e | m]; simpl; [reflexivity |].
  apply IH. intros g Hg. apply Hsame. now right.
Qed.

(** X18. The listing reads the manifest files the glob gives and nothing
    else: two states of the world with the same files under the metadata
    directory, with the same content, have the same listing, the same
    installed packages and the same metadata, whatever else differs. *)
Theorem registry_reads_listed_files_only (w1 w2 : World) (ctx : Context)
    (metadataDir : Path) (filePaths : list string) :
  MetadataDir ctx = inr metadataDir ->
  filepath_Glob w1 (filepath_Join (LocalString metadataDir) "*.json")
  = inr filePaths ->
  filepath_Glob w2 (filepath_Join (LocalString metadataDir) "*.json")
  = inr filePaths ->
  (forall filePath, In filePath filePaths ->
     os_ReadFile w1 filePath = os_ReadFile w2 filePath) ->
  GetAllMetadata w1 ctx = GetAllMetadata w2 ctx
  /\ forall toothRepoPath,
       IsInstalled w1 ctx toothRepoPath = IsInstalled w2 ctx toothRepoPath
       /\ GetMetadata w1 ctx toothRepoPath
          = GetMetadata w2 ctx toothRepoPath.
Proof.
  intros Hdir Hglob1 Hglob2 Hsame.
  assert (Hlist : GetAllMetadata w1 ctx = GetAllMetadata w2 ctx).
  { rewrite (GetAllMetadata_listed w1 ctx Hdir Hglob1).
    rewrite (GetAllMetadata_listed w2 ctx Hdir Hglob2).
    now rewrite (readLoop_same_files w1 w2 filePaths [] Hsame). }
  split; [exact Hlist |].
  intros toothRepoPath. unfold IsInstalled, GetMetadata.
  rewrite Hlist. split; reflexivity.
Qed.

End RegistryFurther.

(** * The further properties at work on the small world *)

Section FurtherExamples.

Import Demo.
#[local] Existing Instance Ref.paths.
#[local] Existing Instance Demo.lib.

Lemma populate_concatenation_witness :
  Place (Files (Raw selfManifest))
  = [rule "assets/*" "out"] ++ [rule "docs/guide.md" "guide.md"]
  /\ @populateMetadataFilePlaceWildcards Ref.paths selfManifest candidates
     = Ok (manifest "example.com/pkg" ""
                    ([rule "assets/a.png" "out/a.png";
                      rule "assets/sub/b.png" "out/sub/b.png"]
                     ++ [rule "docs/guide.md" "guide.md"])).
Proof.
  split; [reflexivity |].
  exact (@populate_concatenation Ref.paths selfManifest
           [rule "assets/*" "out"] [rule "docs/guide.md" "guide.md"]
           candidates eq_refl).
Defined.

Lemma populate_without_wildcards_witness :
  forallb (fun rule => negb (strings.HasSuffix (Src rule) wildcard))
          (Place (Files (Raw plainManifest))) = true
  /\ @populateMetadataFilePlaceWildcards Ref.paths plainManifest candidates
     = Ok plainManifest.
Proof.
  split; [reflexivity |].
  exact (@populate_without_wildcards Ref.paths plainManifest candidates
           eq_refl).
Defined.

Lemma populate_no_candidates_witness :
  forallb (@wellFormedRule Ref.paths) (Place (Files (Raw selfManifest)))
  = true
  /\ @populateMetadataFilePlaceWildcards Ref.paths selfManifest []
     = Ok (manifest "example.com/pkg" "" [rule "docs/guide.md" "guide.md"]).
Proof.
  split; [reflexivity |].
  exact (@populate_no_candidates Ref.paths selfManifest eq_refl).
Defined.

(** The second rule of [badManifest] stops the resolution, also with no
    file to match. *)
Lemma populate_first_error_witness :
  Place (Files (Raw badManifest))
  = [rule "assets/*" "out"] ++ rule "../*" "x" :: [rule "bin/*" ".."]
  /\ forallb (@wellFormedRule Ref.paths) [rule "assets/*" "out"] = true
  /\ strings.HasSuffix "../*" wildcard = true
  /\ Ref.Parse (strings.TrimSuffix "../*" wildcard)
     = inl (New "invalid path: ../")
  /\ @populateMetadataFilePlaceWildcards Ref.paths badManifest []
     = Err (Wrap "failed to parse source path prefix"
                 (New "invalid path: ../")).
Proof.
  do 4 (split; [reflexivity |]).
  exact (proj1 (@populate_first_error Ref.paths badManifest []
                  [rule "assets/*" "out"] [rule "bin/*" ".."]
                  (rule "../*" "x") eq_refl eq_refl eq_refl)
           (New "invalid path: ../") eq_refl).
Defined.

Lemma MakeArchive_identity_witness :
  MakeArchive goodWorld ["pkg.zip"] [] = inr pkgArchive
  /\ exists r filePaths filePathRoot m,
       reachesManifest goodWorld ["pkg.zip"] r filePaths filePathRoot m
       /\ ToothRepoPath (metadata pkgArchive) = ToothRepoPath m
       /\ AssetURL (metadata pkgArchive) = AssetURL m.
Proof.
  split; [reflexivity |].
  exact (@MakeArchive_identity Ref.paths lib goodWorld ["pkg.zip"] []
           pkgArchive eq_refl).
Defined.

Lemma MakeArchive_asset_location_witness :
  (MakeArchive goodWorld ["ext.zip"] ["assets.zip"] = inr extArchive
   /\ (AssetURL (metadata extArchive) = ""
       <-> Ref.IsEmpty ["assets.zip"] = true)
   /\ (AssetURL (metadata extArchive) = "" ->
       AssetArchiveFilePath extArchive = ["ext.zip"])
   /\ (AssetURL (metadata extArchive) <> "" ->
       AssetArchiveFilePath extArchive = ["assets.zip"]
       /\ AssetArchiveFilePathRoot extArchive = []))
  /\ (MakeArchive goodWorld ["pkg.zip"] [] = inr pkgArchive
      /\ (AssetURL (metadata pkgArchive) = "" <-> Ref.IsEmpty [] = true)
      /\ (AssetURL (metadata pkgArchive) = "" ->
          AssetArchiveFilePath pkgArchive = ["pkg.zip"])
      /\ (AssetURL (metadata pkgArchive) <> "" ->
          AssetArchiveFilePath pkgArchive = []
          /\ AssetArchiveFilePathRoot pkgArchive = [])).
Proof.
  split.
  - split; [reflexivity |].
    exact (@MakeArchive_asset_location Ref.paths lib goodWorld ["ext.zip"]
             ["assets.zip"] extArchive eq_refl).
  - split; [reflexivity |].
    exact (@MakeArchive_asset_location Ref.paths lib goodWorld ["pkg.zip"]
             [] pkgArchive eq_refl).
Defined.

(** Of the two entries [a/tooth.json] of [dupZip] the first is the
    manifest; the second, which is no manifest, does no harm. An archive
    without the entry has no manifest. *)
Lemma MakeArchive_manifest_entry_witness :
  gozip_OpenReader bareWorld (Ref.String ["dup.zip"]) = inr dupZip
  /\ @zip_GetFilePaths Ref.paths lib dupZip = inr dupPaths
  /\ @inferRoot Ref.paths dupPaths = inr ["a"]
  /\ MakeArchive bareWorld ["dup.zip"] [] = Ok dupArchive
  /\ MakeArchive bareWorld ["bare.zip"] [] = Err ManifestNotFound.
Proof.
  do 3 (split; [reflexivity |]). split.
  - exact (proj2 (@MakeArchive_manifest_entry Ref.paths lib bareWorld
                    ["dup.zip"] [] dupZip dupPaths ["a"]
                    eq_refl eq_refl eq_refl)
             [] (entry "a/tooth.json" "manifest of alpha")
             [entry "a/readme" "text";
              entry "a/tooth.json" "not a manifest"]
             eq_refl (fun f (H : In f []) => match H with end) eq_refl).
  - apply (proj1 (@MakeArchive_manifest_entry Ref.paths lib bareWorld
                    ["bare.zip"] [] bareZip
                    [["a"; "readme"]; ["a"; "main.go"]] ["a"]
                    eq_refl eq_refl eq_refl)).
    intros f [<- | [<- | []]]; discriminate.
Defined.

Lemma MakeArchive_external_path_witness :
  Ref.IsEmpty ["assets.zip"] = false
  /\ Ref.IsEmpty ["mirror"; "assets.zip"] = false
  /\ MakeArchive goodWorld ["ext.zip"] ["assets.zip"] = inr extArchive
  /\ MakeArchive goodWorld ["ext.zip"] ["mirror"; "assets.zip"]
     = inr (@Build_Archive Ref.paths (metadata extArchive)
              ["mirror"; "assets.zip"] []).
Proof.
  do 3 (split; [reflexivity |]).
  exact (@MakeArchive_external_path Ref.paths lib goodWorld ["ext.zip"]
           ["assets.zip"] ["mirror"; "assets.zip"] eq_refl eq_refl).
Defined.

Lemma GetAvailableVersions_any_body_witness :
  SortContract (@sort_Sort Ref.paths lib)
  /\ module_CheckPath "example.com/pkg" = None
  /\ GoModuleProxyURL ctx = inr "https://proxy.example"
  /\ network_GenerateGoModuleVersionListURL "example.com/pkg"
       "https://proxy.example"
     = inr "https://proxy.example/example.com/pkg/@v/list"
  /\ network_GetContent goodWorld
       "https://proxy.example/example.com/pkg/@v/list" = inr index
  /\ exists versionList used lost,
       GetAvailableVersions goodWorld ctx "example.com/pkg" = Ok versionList
       /\ bodyLines index = used ++ lost
       /\ Permutation versionList (parsedVersions used)
       /\ descending versionList
       /\ (forall v, In v versionList ->
             exists line, In line (bodyLines index)
                          /\ lineVersion line = Some v)
       /\ List.length versionList <= List.length (bodyLines index).
Proof.
  split; [exact Ref_sort_contract |].
  do 4 (split; [reflexivity |]).
  exact (@GetAvailableVersions_any_body Ref.paths lib goodWorld ctx
           "example.com/pkg" "https://proxy.example"
           "https://proxy.example/example.com/pkg/@v/list" index
           Ref_sort_contract eq_refl eq_refl eq_refl eq_refl).
Defined.

(** On [rcIndex] the latest stable version is 2.0.0, below the
    pre-release 3.0.0-rc1 and above 1.2.3. *)
Lemma GetLatestStableVersion_greatest_witness :
  SortContract (@sort_Sort Ref.paths lib)
  /\ network_GetContent rcWorld
       "https://proxy.example/example.com/pkg/@v/list" = inr rcIndex
  /\ GetLatestStableVersion rcWorld ctx "example.com/pkg"
     = inr (version 2 0 0 [])
  /\ semver.Pre (version 2 0 0 []) = []
  /\ (exists line, In line (bufio.Scan rcIndex)
                   /\ lineVersion line = Some (version 2 0 0 []))
  /\ (forall line u,
        In line (bufio.Scan rcIndex) ->
        lineVersion line = Some u ->
        semver.Pre u = [] ->
        semver.LT (version 2 0 0 []) u = false).
Proof.
  split; [exact Ref_sort_contract |].
  do 2 (split; [reflexivity |]).
  exact (@GetLatestStableVersion_greatest Ref.paths lib rcWorld ctx
           "example.com/pkg" "https://proxy.example"
           "https://proxy.example/example.com/pkg/@v/list" rcIndex
           (version 2 0 0 [])
           Ref_sort_contract eq_refl eq_refl eq_refl eq_refl eq_refl).
Defined.

Lemma GetLatestStableVersion_none_witness :
  SortContract (@sort_Sort Ref.paths lib)
  /\ network_GetContent preWorld
       "https://proxy.example/example.com/pkg/@v/list" = inr preIndex
  /\ (forall line u,
        In line (bufio.Scan preIndex) ->
        lineVersion line = Some u ->
        semver.Pre u <> [])
  /\ GetLatestStableVersion preWorld ctx "example.com/pkg"
     = Err NoStableVersion.
Proof.
  split; [exact Ref_sort_contract |]. split; [reflexivity |].
  assert (Hpre : forall line u,
             In line (bufio.Scan preIndex) ->
             lineVersion line = Some u ->
             semver.Pre u <> []).
  { intros line u [<- | [<- | []]] Hparse;
      vm_compute in Hparse; injection Hparse as <-; discriminate. }
  split; [exact Hpre |].
  exact (proj2 (@GetLatestStableVersion_none Ref.paths lib preWorld ctx
                  "example.com/pkg" "https://proxy.example"
                  "https://proxy.example/example.com/pkg/@v/list" preIndex
                  Ref_sort_contract eq_refl eq_refl eq_refl eq_refl)
           Hpre).
Defined.

Lemma empty_store_witness :
  SortContract (@sort_Slice Ref.paths lib)
  /\ MetadataDir ctx = inr ["lip"; "metadata"]
  /\ filepath_Glob bareWorld
       (filepath_Join (Ref.String ["lip"; "metadata"]) "*.json")
     = inr []
  /\ GetAllMetadata bareWorld ctx = Ok []
  /\ forall toothRepoPath,
       IsInstalled bareWorld ctx toothRepoPath = Ok false
       /\ GetMetadata bareWorld ctx toothRepoPath
          = Err (NotFound toothRepoPath).
Proof.
  split; [exact Ref_sort_contract |].
  do 2 (split; [reflexivity |]).
  exact (@empty_store Ref.paths lib bareWorld ctx ["lip"; "metadata"]
           Ref_sort_contract eq_refl eq_refl).
Defined.

Lemma GetAllMetadata_complete_witness :
  SortContract (@sort_Slice Ref.paths lib)
  /\ MetadataDir ctx = inr ["lip"; "metadata"]
  /\ filepath_Glob goodWorld
       (filepath_Join (Ref.String ["lip"; "metadata"]) "*.json")
     = inr (map fst goodStore)
  /\ GetAllMetadata goodWorld ctx
     = inr [singleManifest; extManifest; selfManifest]
  /\ List.length [singleManifest; extManifest; selfManifest]
     = List.length (map fst goodStore)
  /\ forall filePath, In filePath (map fst goodStore) ->
       exists m, loadMetadataFile goodWorld filePath = inr m
                 /\ In m [singleManifest; extManifest; selfManifest].
Proof.
  split; [exact Ref_sort_contract |].
  do 3 (split; [reflexivity |]).
  exact (@GetAllMetadata_complete Ref.paths lib goodWorld ctx
           ["lip"; "metadata"] (map fst goodStore)
           [singleManifest; extManifest; selfManifest]
           Ref_sort_contract eq_refl eq_refl eq_refl).
Defined.

(** Two worlds with the good store and different indexes. *)
Lemma registry_reads_listed_files_only_witness :
  MetadataDir ctx = inr ["lip"; "metadata"]
  /\ filepath_Glob goodWorld
       (filepath_Join (Ref.String ["lip"; "metadata"]) "*.json")
     = inr (map fst goodStore)
  /\ filepath_Glob preWorld
       (filepath_Join (Ref.String ["lip"; "metadata"]) "*.json")
     = inr (map fst goodStore)
  /\ (forall filePath, In filePath (map fst goodStore) ->
        os_ReadFile goodWorld filePath = os_ReadFile preWorld filePath)
  /\ GetAllMetadata goodWorld ctx = GetAllMetadata preWorld ctx
  /\ forall toothRepoPath,
       IsInstalled goodWorld ctx toothRepoPath
       = IsInstalled preWorld ctx toothRepoPath
       /\ GetMetadata goodWorld ctx toothRepoPath
          = GetMetadata preWorld ctx toothRepoPath.
Proof.
  do 3 (split; [reflexivity |]).
  assert (Hsame : forall filePath, In filePath (map fst goodStore) ->
             os_ReadFile goodWorld filePath = os_ReadFile preWorld filePath)
    by reflexivity.
  split; [exact Hsame |].
  exact (@registry_reads_listed_files_only Ref.paths lib goodWorld preWorld
           ctx ["lip"; "metadata"] (map fst goodStore)
           eq_refl eq_refl eq_refl Hsame).
Defined.

End FurtherExamples.
